(** * OMRChecker: the marking-scheme evaluation engine of src/evaluation.py

    A shallow embedding of [src/evaluation.py]: the range parser
    ([parse_question_string], [parse_questions]), the per-section marking
    scheme with its streak counters ([SectionMarkingScheme]), the
    configuration with its consistency check ([EvaluationConfig],
    [validate_all]) and the scoring pass ([evaluate_concatenated_response]).

    Conventions of the embedding.
    - Python [str] is [string] (one [ascii] per character; the regular
      expression class [\d] is the ten ASCII digits).
    - Python [int] is [Z] (or [N] where the code only builds naturals);
      Python [float] is the kernel's binary64 [float], the same IEEE 754
      format CPython uses.
    - A [set] of strings is [gset string]; the response [dict] is
      [gmap string string]; the marking-scheme [dict], whose iteration order
      the code depends on, is an association list in insertion order, and a
      section object is referred to by its position in that list.
    - Exceptions and mutation are explicit: a computation is a function from
      the current state to an outcome and the state it leaves, and the state
      left by a raised exception is kept, as it is in Python. *)

From Stdlib Require Import Ascii String Floats.
From stdpp Require Import base tactics option list strings gmap sorting pretty.

Local Open Scope Z_scope.
#[local] Set Warnings "-clear-no-such-hyp".

(** ** Characters and strings *)

Definition is_digit (c : ascii) : bool :=
  let n := nat_of_ascii c in (48 <=? n)%nat && (n <=? 57)%nat.

Definition is_dot (c : ascii) : bool := Ascii.eqb c "."%char.

(** The class [[^\.\d]]. *)
Definition is_prefix_char (c : ascii) : bool := negb (is_dot c || is_digit c).

Fixpoint string_forall (p : ascii → bool) (s : string) : bool :=
  match s with
  | EmptyString => true
  | String c s' => p c && string_forall p s'
  end.

Fixpoint string_exists (p : ascii → bool) (s : string) : bool :=
  match s with
  | EmptyString => false
  | String c s' => p c || string_exists p s'
  end.

(** [str.startswith]. *)
Definition startswith (s pre : string) : bool := String.prefix pre s.

Fixpoint string_take (n : nat) (s : string) : string :=
  match n, s with
  | S n', String c s' => String c (string_take n' s')
  | _, _ => EmptyString
  end.

Fixpoint string_drop (n : nat) (s : string) : string :=
  match n, s with
  | S n', String _ s' => string_drop n' s'
  | _, _ => s
  end.

(** Length of the longest prefix of [s] whose characters are all in [p]. *)
Fixpoint run_length (p : ascii → bool) (s : string) : nat :=
  match s with
  | String c s' => if p c then S (run_length p s') else 0%nat
  | EmptyString => 0%nat
  end.

(** [int(s)] on a string of decimal digits. *)
Definition digit_value (c : ascii) : N := N.of_nat (nat_of_ascii c - 48).

Fixpoint int_of_digits_from (acc : N) (s : string) : N :=
  match s with
  | EmptyString => acc
  | String c s' => int_of_digits_from (10 * acc + digit_value c)%N s'
  end.

Definition int_of_digits (s : string) : N := int_of_digits_from 0%N s.

(** ** Regular expressions of the shape the range parser uses

    A pattern is a sequence of items, each a character class repeated
    greedily between [rep_min] and [rep_max] times ([None]: unbounded), and
    possibly a capture group. Matching backtracks as Python's [re] does: an
    item first takes as many characters as it can and gives them back one by
    one while the rest of the pattern fails. *)

Record re_item := ReItem {
  re_class : ascii → bool;
  rep_min : nat;
  rep_max : option nat;
  re_capture : bool
}.

Definition re_pattern := list re_item.

(** Try the lengths [base + extra], [base + extra - 1], ..., [base] for the
    current item; [k n] is the rest of the match once the item took [n]
    characters. *)
Fixpoint re_backtrack {A} (k : nat → option A) (base extra : nat) : option A :=
  match k (base + extra)%nat with
  | Some r => Some r
  | None =>
      match extra with
      | O => None
      | S extra' => re_backtrack k base extra'
      end
  end.

(** Match the pattern at the head of [s]: the captured groups, in order, and
    the text left after the match. *)
Fixpoint re_match_here (items : re_pattern) (s : string)
    : option (list string * string) :=
  match items with
  | [] => Some ([], s)
  | it :: items' =>
      let avail := run_length (re_class it) s in
      let most := match rep_max it with
                  | Some m => Nat.min m avail
                  | None => avail
                  end in
      if (most <? rep_min it)%nat then None
      else
        re_backtrack
          (λ n, match re_match_here items' (string_drop n s) with
                | Some (groups, rest) =>
                    Some (if re_capture it then string_take n s :: groups
                          else groups, rest)
                | None => None
                end)
          (rep_min it) (most - rep_min it)
  end.

(** [re.findall]: the non-overlapping matches, scanning left to right. The
    fuel bounds the number of scanning steps; [String.length s + 1] steps
    always suffice, since every step drops at least one character. *)
Fixpoint re_findall_from (fuel : nat) (items : re_pattern) (s : string)
    : list (list string) :=
  match fuel with
  | O => []
  | S fuel' =>
      match re_match_here items s with
      | Some (groups, rest) =>
          groups ::
          (if (String.length rest <? String.length s)%nat
           then re_findall_from fuel' items rest
           else match s with
                | EmptyString => []
                | String _ s' => re_findall_from fuel' items s'
                end)
      | None =>
          match s with
          | EmptyString => []
          | String _ s' => re_findall_from fuel' items s'
          end
      end
  end.

Definition re_findall (items : re_pattern) (s : string) : list (list string) :=
  re_findall_from (S (String.length s)) items s.

(** The pattern [([^\.\d]+)(\d+)\.{2,3}(\d+)] of [parse_question_string]. *)
Definition range_pattern : re_pattern :=
  [ ReItem is_prefix_char 1 None true;
    ReItem is_digit 1 None true;
    ReItem is_dot 2 (Some 3%nat) false;
    ReItem is_digit 1 None true ].

(** ** Exceptions

    The code raises plain [Exception]s told apart by their message; the
    constructors below name them after the error kinds of the design notes
    and keep the values the message is built from. The built-in exceptions
    the code can run into are listed after them. *)

Inductive coverage_side :=
  | MissingFromMarkingScheme  (* "... from the answer key are missing from the marking scheme" *)
  | MissingFromAnswerKey.     (* "... from the marking scheme are missing from the answer key" *)

Inductive error :=
  | RangeDefinitionError (question_string : string) (start stop : N)
      (* "Invalid range in question string: .., start: .. is not less than end: .." *)
  | QuestionOverlapError (question_string key : string) (questions : list string)
      (* "Given question string '..' has overlapping question(s) with other questions in '..': .." *)
  | AnswerKeyLengthError
      (* "Unequal lengths for questions_in_order and answers_in_order" *)
  | SectionOverlapError (section_key : string)
      (* "Section '..' has overlapping question(s) with other sections" *)
  | SchemeCoverageError (side : coverage_side)
  | ResponseCoverageError
      (* "Some questions from the answer key are missing for the given OMR response" *)
  | AnswerKeyIOError
      (* "Answer key not found at .." *)
  | PyIndexError
  | PyKeyError (key : string)
  | PyTypeError
  | PyValueError
  | PyZeroDivisionError
  | PyOverflowError
  | PyUnboundLocalError (name : string).

(** The outcome of a call: the exception it raised or the value it returned. *)
Definition result (A : Type) : Type := error + A.

Abbreviation Raised := (@inl error _).
Abbreviation Returned := (@inr error _).

#[global] Instance result_ret : MRet result := λ _ x, inr x.
#[global] Instance result_bind : MBind result := λ _ _ f r,
  match r with
  | inl e => inl e
  | inr x => f x
  end.
#[global] Instance result_fmap : FMap result := λ _ _ f r,
  match r with
  | inl e => inl e
  | inr x => inr (f x)
  end.

(** A [for] loop that threads its local variables and stops at the first
    exception. *)
Fixpoint for_result {A B} (body : B → A → result B) (acc : B) (l : list A)
    : result B :=
  match l with
  | [] => Returned acc
  | x :: l' => acc' ← body acc x; for_result body acc' l'
  end.

(** ** RangeParser *)

(** [range(a, b)]. *)
Definition py_range (a b : N) : list N :=
  (λ i, a + N.of_nat i)%N <$> seq 0 (N.to_nat (b - a)).

Definition parse_question_string (question_string : string)
    : result (list string) :=
  if string_exists is_dot question_string then
    match re_findall range_pattern question_string with
    | [] => Raised PyIndexError
    | [question_prefix; start; stop] :: _ =>
        let start := int_of_digits start in
        let stop := int_of_digits stop in
        if (stop <=? start)%N then
          Raised (RangeDefinitionError question_string start stop)
        else
          Returned ((λ question_number, question_prefix +:+ pretty question_number)
                    <$> py_range start (stop + 1))
    | _ :: _ => Raised PyValueError  (* a match always has the three groups *)
    end
  else Returned [question_string].

Definition parse_questions (key : string) (questions : list string)
    : result (list string) :=
  let questions_set : gset string := ∅ in   (* never added to by the loop *)
  for_result
    (λ parsed_questions question_string,
       questions_array ← parse_question_string question_string;
       let current_set : gset string := list_to_set questions_array in
       if bool_decide (questions_set ## current_set) then
         Returned (parsed_questions ++ questions_array)
       else
         Raised (QuestionOverlapError question_string key questions))
    [] questions.

(** ** State and exceptions

    A computation over a mutable state [St]: it returns or raises, and in
    both cases leaves a state behind. *)

Definition M (St A : Type) : Type := St → result A * St.

#[global] Instance M_ret {St} : MRet (M St) := λ _ x st, (inr x, st).
#[global] Instance M_bind {St} : MBind (M St) := λ _ _ f m st,
  match m st with
  | (inl e, st') => (inl e, st')
  | (inr x, st') => f x st'
  end.

Definition raise {St A} (e : error) : M St A := λ st, (inl e, st).
Definition get_state {St} : M St St := λ st, (inr st, st).
Definition put_state {St} (st : St) : M St unit := λ _, (inr (), st).
Definition modify_state {St} (f : St → St) : M St unit := λ st, (inr (), f st).
Definition lift_result {St A} (r : result A) : M St A := λ st, (r, st).

(** Run a computation on a part of the state. *)
Definition zoom {S T A} (part : S → T) (update : T → S → S) (m : M T A)
    : M S A :=
  λ s, let '(r, t) := m (part s) in (r, update t s).

Fixpoint for_each {St A} (l : list A) (body : A → M St unit) : M St unit :=
  match l with
  | [] => mret ()
  | x :: l' => body x;; for_each l' body
  end.

(** A loop that also threads local variables. *)
Fixpoint for_fold {St A B} (body : B → A → M St B) (acc : B) (l : list A)
    : M St B :=
  match l with
  | [] => mret acc
  | x :: l' => acc' ← body acc x; for_fold body acc' l'
  end.

(** ** Values *)

(** A Python number as the JSON reader produces it. *)
Inductive pynum :=
  | PyInt (z : Z)
  | PyFloat (f : float).

(** A marking value as written in the evaluation file. The evaluation schema
    admits a string, a number or a list of those for a verdict. *)
#[warnings="-register-all"]
Inductive json :=
  | JString (s : string)
  | JNumber (n : pynum)
  | JArray (items : list json).

(** A parsed marking value, as [SectionMarkingScheme.marking] holds it and as
    [match_answer] tells its cases apart by [type]: a number, a [list], or the
    iterator object that the built-in [map] returns, which keeps the function
    and the items it has not yet been asked for. *)
Inductive marking_value :=
  | MarkNumber (n : pynum)
  | MarkList (items : list pynum)
  | MarkMapObject (pending : list json).

(** [int] to [float] as float arithmetic with an [int] operand does it:
    rounded to nearest, [OverflowError] beyond the range of a double. *)
Definition float_of_int (z : Z) : result float :=
  let f := SF2Prim (binary_normalize prec emax z 0 false) in
  if PrimFloat.is_infinity f then Raised PyOverflowError else Returned f.

(** [score + delta] for a float [score]. *)
Definition float_add_value (score : float) (delta : marking_value)
    : result float :=
  match delta with
  | MarkNumber (PyFloat f) => Returned (score + f)%float
  | MarkNumber (PyInt z) => f ← float_of_int z; Returned (score + f)%float
  | MarkList _ | MarkMapObject _ => Raised PyTypeError
  end.

(** [l[i]] on a list, negative indices counting from the end. *)
Definition py_list_index {A} (l : list A) (i : Z) : result A :=
  let n := Z.of_nat (length l) in
  let j := if i <? 0 then n + i else i in
  if (j <? 0) || (n <=? j) then Raised PyIndexError
  else match l !! Z.to_nat j with
       | Some x => Returned x
       | None => Raised PyIndexError
       end.

(** ** Verdicts *)

Inductive verdict := correct | incorrect | unmarked.

#[global] Instance verdict_eq_dec : EqDecision verdict.
Proof. solve_decision. Defined.

(** Modelled from the spec: the constant [MARKING_VERDICT_TYPES] of
    [src/schemas/evaluation_schema.py], which is not among the sources; the
    verdict kinds are correct, incorrect and unmarked, the three keys of
    [SectionMarkingScheme.streaks]. *)
Definition MARKING_VERDICT_TYPES : list verdict := [correct; incorrect; unmarked].

(** A [dict] with exactly the three verdicts as keys. *)
Record per_verdict (A : Type) := PerVerdict {
  on_correct : A;
  on_incorrect : A;
  on_unmarked : A
}.
Arguments PerVerdict {A} _ _ _.
Arguments on_correct {A} _.
Arguments on_incorrect {A} _.
Arguments on_unmarked {A} _.

Definition pv_get {A} (d : per_verdict A) (v : verdict) : A :=
  match v with
  | correct => on_correct d
  | incorrect => on_incorrect d
  | unmarked => on_unmarked d
  end.

Definition pv_set {A} (v : verdict) (x : A) (d : per_verdict A) : per_verdict A :=
  match v with
  | correct => PerVerdict x (on_incorrect d) (on_unmarked d)
  | incorrect => PerVerdict (on_correct d) x (on_unmarked d)
  | unmarked => PerVerdict (on_correct d) (on_incorrect d) x
  end.

(** ** The logger *)

Inductive log_record :=
  | Warning_positive_incorrect (result : float) (section_key : string)
      (* "Found positive marks(..) for incorrect answer in the schema '..'. ...";
         the message shows [result] rounded to two decimals *)
  | Critical_answer_key (questions_in_order answers_in_order : list string)
  | Critical_missing_marking_scheme (missing_questions : list string)
  | Critical_missing_answer_key (missing_questions : list string)
  | Critical_missing_response (missing_questions : list string).

Definition logger := list log_record.

Definition log (r : log_record) : M logger unit := modify_state (λ l, l ++ [r]).

(** ** SectionMarkingScheme *)

Record SectionMarkingScheme := {
  empty_val : string;
  section_key : string;
  streaks : per_verdict Z;
  questions : option (list string);   (* [None] for the default section *)
  marking : per_verdict marking_value
}.

Definition set_streaks (f : per_verdict Z → per_verdict Z)
    (self : SectionMarkingScheme) : SectionMarkingScheme :=
  {| empty_val := empty_val self;
     section_key := section_key self;
     streaks := f (streaks self);
     questions := questions self;
     marking := marking self |}.

(** A section of the [marking_scheme] block of the evaluation file: the
    default section is written as its marking alone, every other section as
    its questions and its marking. The schema requires the three verdicts in
    a marking. *)
Inductive section_scheme_json :=
  | SchemeShorthand (marking : per_verdict json)
  | SchemeExplicit (questions : list string) (marking : per_verdict json).

Definition get_question_verdict (marked_answer correct_answer : string)
    : M SectionMarkingScheme verdict :=
  self ← get_state;
  if decide (marked_answer = empty_val self) then mret unmarked
  else if decide (marked_answer = correct_answer) then mret correct
  else mret incorrect.

Definition update_streaks_for_verdict (question_verdict : verdict)
    : M SectionMarkingScheme unit :=
  self ← get_state;
  let current_streak := pv_get (streaks self) question_verdict in
  for_each MARKING_VERDICT_TYPES (λ verdict_type,
    if decide (question_verdict = verdict_type) then
      (* increase current streak *)
      modify_state (set_streaks (pv_set verdict_type (current_streak + 1)))
    else
      (* reset other streaks *)
      modify_state (set_streaks (pv_set verdict_type 0))).

Definition match_answer (marked_answer correct_answer : string)
    : M SectionMarkingScheme (marking_value * verdict) :=
  question_verdict ← get_question_verdict marked_answer correct_answer;
  self ← get_state;
  let current_streak := pv_get (streaks self) question_verdict in
  let marking_ := pv_get (marking self) question_verdict in
  delta ← match marking_ with
          | MarkList items =>
              lift_result
                (MarkNumber <$>
                 py_list_index items
                   (Z.min current_streak (Z.of_nat (length items) - 1)))
          | _ => mret marking_
          end;
  update_streaks_for_verdict question_verdict;;
  mret (delta, question_verdict).

Section Evaluation.

(** The constants of [src/schemas/evaluation_schema.py], which is not among
    the sources, and the two conversions of the Python library that
    [parse_float_or_fraction] calls: [float(s)] and [float(Fraction(s))] on a
    string. *)
Variable DEFAULT_SECTION_KEY : string.
Variable BONUS_SECTION_PREFIX : string.
Variable py_float : string → result float.
Variable py_float_of_Fraction : string → result float.

Definition parse_float_or_fraction (text : string) : result float :=
  if string_exists (Ascii.eqb "/"%char) text then py_float_of_Fraction text
  else py_float text.

(** [self.section_key] is the only attribute the method reads. *)
Definition parse_scheme_marking (self_section_key : string)
    (marking : per_verdict json) : M logger (per_verdict marking_value) :=
  let parse_one (verdict_type : verdict) : M logger marking_value :=
    match pv_get marking verdict_type with
    | JString text =>
        parsed ← lift_result (parse_float_or_fraction text);
        (if (0 <? parsed)%float
            && bool_decide (verdict_type = incorrect)
            && negb (startswith self_section_key BONUS_SECTION_PREFIX)
         then log (Warning_positive_incorrect parsed self_section_key)
         else mret ());;
        mret (MarkNumber (PyFloat parsed))
    | JArray items => mret (MarkMapObject items)
    | JNumber n => mret (MarkNumber n)
    end in
  (* parsed_marking starts as the empty dict and the loop assigns the key of
     each verdict type, so the entries of the initial value are never read *)
  for_fold
    (λ parsed_marking verdict_type,
       parsed ← parse_one verdict_type;
       mret (pv_set verdict_type parsed parsed_marking))
    (PerVerdict (MarkNumber (PyInt 0)) (MarkNumber (PyInt 0)) (MarkNumber (PyInt 0)))
    MARKING_VERDICT_TYPES.

(** [SectionMarkingScheme.__init__]. A section whose JSON has the other
    shape than its key asks for fails on the first missing key. *)
Definition SectionMarkingScheme_init (section_key : string)
    (section_scheme : section_scheme_json) (empty_val : string)
    : M logger SectionMarkingScheme :=
  let fresh_streaks := PerVerdict 0 0 0 in
  if decide (section_key = DEFAULT_SECTION_KEY) then
    match section_scheme with
    | SchemeShorthand marking =>
        marking ← parse_scheme_marking section_key marking;
        mret {| empty_val := empty_val; section_key := section_key;
                streaks := fresh_streaks; questions := None;
                marking := marking |}
    | SchemeExplicit _ _ => raise (PyKeyError "correct")
    end
  else
    match section_scheme with
    | SchemeExplicit questions marking =>
        questions ← lift_result (parse_questions section_key questions);
        marking ← parse_scheme_marking section_key marking;
        mret {| empty_val := empty_val; section_key := section_key;
                streaks := fresh_streaks; questions := Some questions;
                marking := marking |}
    | SchemeShorthand _ => raise (PyKeyError "questions")
    end.

(** *** EvaluationConfig *)

(** A row of the explanation table. The table shows the verdict title-cased
    and the two numbers rounded to two decimals; the row keeps the values
    that are rendered. *)
Record explanation_row := {
  row_question : string;
  row_marked : string;
  row_correct : string;
  row_verdict : verdict;
  row_delta : marking_value;
  row_score : float;
  row_section : string;
  row_streak : Z
}.

Record EvaluationConfig := {
  should_explain_scoring : bool;
  explanation_table : list explanation_row;
  questions_in_order : list string;
  answers_in_order : list string;
  (* the dict of section objects, in insertion order *)
  marking_scheme : list (string * SectionMarkingScheme)
}.

(** Where the answer key comes from: the two columns of the CSV file at
    [options.answer_key_path] ([None] when the file does not exist), or the
    lists of the evaluation file itself. *)
Inductive answer_key_source :=
  | SourceCsv (columns : option (list string * list string))
  | SourceInline (questions_in_order answers_in_order : list string).

Record evaluation_json := {
  json_should_explain_scoring : option bool;
  json_source : answer_key_source;
  json_marking_scheme : list (string * section_scheme_json)
}.

(** [d[key] = value] on a dict kept in insertion order. *)
Fixpoint dict_set {A} (key : string) (value : A) (d : list (string * A))
    : list (string * A) :=
  match d with
  | [] => [(key, value)]
  | (k, v) :: d' =>
      if decide (k = key) then (k, value) :: d'
      else (k, v) :: dict_set key value d'
  end.

Definition parse_questions_in_order (questions_in_order : list string)
    : result (list string) :=
  parse_questions "questions_in_order" questions_in_order.

(** A fresh table: the columns are fixed, there are no rows. *)
Definition prepare_explanation_table : list explanation_row := [].

(** [EvaluationConfig.__init__] on the evaluation file already read and
    validated against the schema; [global_empty_val] is the template's. *)
Definition EvaluationConfig_init (evaluation : evaluation_json)
    (global_empty_val : string) : M logger EvaluationConfig :=
  let should_explain_scoring :=
    default false (json_should_explain_scoring evaluation) in
  (* the attribute is only set when explanations are on; an absent table is
     modelled as an empty one, which nothing reads *)
  let explanation_table :=
    if should_explain_scoring then prepare_explanation_table else [] in
  '(questions_in_order, answers_in_order) ←
    match json_source evaluation with
    | SourceCsv None => raise AnswerKeyIOError
    | SourceCsv (Some (ids, answers)) => mret (ids, answers)
    | SourceInline questions_in_order answers_in_order =>
        questions_in_order ←
          lift_result (parse_questions_in_order questions_in_order);
        mret (questions_in_order, answers_in_order)
    end;
  marking_scheme ←
    for_fold
      (λ marking_scheme '(section_key, section_scheme),
         section ← SectionMarkingScheme_init section_key section_scheme
                     global_empty_val;
         mret (dict_set section_key section marking_scheme))
      [] (json_marking_scheme evaluation);
  mret {| should_explain_scoring := should_explain_scoring;
          explanation_table := explanation_table;
          questions_in_order := questions_in_order;
          answers_in_order := answers_in_order;
          marking_scheme := marking_scheme |}.

(** *** The state a scoring pass runs in

    The configuration object with the section objects it owns, the logger
    and the console. *)

Record world := {
  evaluation_config : EvaluationConfig;
  log_records : logger;
  console : list (list explanation_row)
}.

Definition with_config (f : EvaluationConfig → EvaluationConfig) (w : world)
    : world :=
  {| evaluation_config := f (evaluation_config w);
     log_records := log_records w;
     console := console w |}.

Definition set_marking_scheme (ms : list (string * SectionMarkingScheme))
    (cfg : EvaluationConfig) : EvaluationConfig :=
  {| should_explain_scoring := should_explain_scoring cfg;
     explanation_table := explanation_table cfg;
     questions_in_order := questions_in_order cfg;
     answers_in_order := answers_in_order cfg;
     marking_scheme := ms |}.

Definition set_explanation_table (t : list explanation_row)
    (cfg : EvaluationConfig) : EvaluationConfig :=
  {| should_explain_scoring := should_explain_scoring cfg;
     explanation_table := t;
     questions_in_order := questions_in_order cfg;
     answers_in_order := answers_in_order cfg;
     marking_scheme := marking_scheme cfg |}.

Definition log_in_world (r : log_record) : M world unit :=
  zoom log_records
    (λ l w, {| evaluation_config := evaluation_config w;
               log_records := l;
               console := console w |})
    (log r).

Definition print_to_console (t : list explanation_row) : M world unit :=
  modify_state
    (λ w, {| evaluation_config := evaluation_config w;
             log_records := log_records w;
             console := console w ++ [t] |}).

(** A method call on the section object at position [ref] of the marking
    scheme. The scoring pass only builds positions of existing sections
    ([routing_refs_valid] below); the last case is there to make the
    function total. *)
Definition at_section {A} (ref : nat) (m : M SectionMarkingScheme A)
    : M world A :=
  λ w,
    let ms := marking_scheme (evaluation_config w) in
    match ms !! ref with
    | Some (key, section) =>
        let '(r, section') := m section in
        (r, with_config (set_marking_scheme (<[ref := (key, section')]> ms)) w)
    | None => (Raised PyIndexError, w)
    end.

(** [sorted] on a set of strings. *)
Definition str_le : relation string := λ a b, String.leb a b.

Definition py_sorted (X : gset string) : list string :=
  merge_sort str_le (elements X).

Definition validate_all (omr_response : gmap string string) : M world unit :=
  w ← get_state;
  let self := evaluation_config w in
  let questions_in_order := questions_in_order self in
  let answers_in_order := answers_in_order self in
  (if decide (length questions_in_order ≠ length answers_in_order) then
     log_in_world (Critical_answer_key questions_in_order answers_in_order);;
     raise AnswerKeyLengthError
   else mret ());;
  section_questions ←
    for_fold
      (λ (section_questions : gset string) '(section_key, section_scheme),
         if decide (section_key = DEFAULT_SECTION_KEY) then
           mret section_questions
         else
           match questions section_scheme with
           | None => raise PyTypeError   (* set(None) *)
           | Some section_scheme_questions =>
               let current_set : gset string :=
                 list_to_set section_scheme_questions in
               if bool_decide (section_questions ## current_set) then
                 mret (section_questions ∪ current_set)
               else raise (SectionOverlapError section_key)
           end)
      ∅ (marking_scheme self);
  let answer_key_questions : gset string := list_to_set questions_in_order in
  (if bool_decide (answer_key_questions ≠ section_questions) then
     if bool_decide (section_questions ⊆ answer_key_questions) then
       log_in_world
         (Critical_missing_marking_scheme
            (py_sorted (answer_key_questions ∖ section_questions)));;
       raise (SchemeCoverageError MissingFromMarkingScheme)
     else
       log_in_world
         (Critical_missing_answer_key
            (py_sorted (section_questions ∖ answer_key_questions)));;
       raise (SchemeCoverageError MissingFromAnswerKey)
   else mret ());;
  let omr_response_questions : gset string := dom omr_response in
  if bool_decide (omr_response_questions ⊆ answer_key_questions) then
    log_in_world
      (Critical_missing_response
         (py_sorted (answer_key_questions ∖ omr_response_questions)));;
    raise ResponseCoverageError
  else mret ().

(** [enumerate]. *)
Fixpoint enumerate_from {A} (i : nat) (l : list A) : list (nat * A) :=
  match l with
  | [] => []
  | x :: l' => (i, x) :: enumerate_from (S i) l'
  end.

Definition enumerate {A} (l : list A) : list (nat * A) := enumerate_from 0 l.

Definition conditionally_add_explanation (correct_answer : string)
    (delta : marking_value) (marked_answer : string)
    (question_marking_scheme : nat) (question_verdict : verdict)
    (question : string) (score : float) : M world unit :=
  w ← get_state;
  if should_explain_scoring (evaluation_config w) then
    next_score ← lift_result (float_add_value score delta);
    row ← at_section question_marking_scheme
            (section ← get_state;
             mret {| row_question := question;
                     row_marked := marked_answer;
                     row_correct := correct_answer;
                     row_verdict := question_verdict;
                     row_delta := delta;
                     row_score := next_score;
                     row_section := section_key section;
                     row_streak := pv_get (streaks section) question_verdict |});
    modify_state
      (with_config (λ cfg,
         set_explanation_table (explanation_table cfg ++ [row]) cfg))
  else mret ().

Definition conditionally_print_explanation : M world unit :=
  w ← get_state;
  if should_explain_scoring (evaluation_config w) then
    print_to_console (explanation_table (evaluation_config w))
  else mret ().

(** The first loop of [evaluate_concatenated_response]: the table from a
    question to the section object that scores it, and the local variable
    [default_marking_scheme], which stays unbound ([None]) when no section
    has the default key. The keys of a dict are distinct, so
    [marking_scheme[section_key]] is the object the loop is visiting. *)
Definition route_questions (marking_scheme : list (string * SectionMarkingScheme))
    : result (gmap string nat * option nat) :=
  for_result
    (λ '(QUESTION_WISE_SCHEMES, default_marking_scheme)
       '(ref, (section_key, section_marking_scheme)),
       if decide (section_key = DEFAULT_SECTION_KEY) then
         Returned (QUESTION_WISE_SCHEMES, Some ref)
       else
         match questions section_marking_scheme with
         | None => Raised PyTypeError   (* iterating None *)
         | Some section_questions =>
             Returned
               (foldl (λ table q, <[q := ref]> table)
                      QUESTION_WISE_SCHEMES section_questions,
                default_marking_scheme)
         end)
    (∅, None) (enumerate marking_scheme).

Definition score_question (concatenated_response : gmap string string)
    (answers_in_order : list string)
    (QUESTION_WISE_SCHEMES : gmap string nat)
    (default_marking_scheme : option nat)
    (score : float) (q_index : nat) (question : string) : M world float :=
  correct_answer ←
    lift_result (py_list_index answers_in_order (Z.of_nat q_index));
  marked_answer ←
    match concatenated_response !! question with
    | Some marked => mret marked
    | None => raise (PyKeyError question)
    end;
  (* the fallback argument of [dict.get] is evaluated before the call *)
  fallback ←
    match default_marking_scheme with
    | Some ref => mret ref
    | None => raise (PyUnboundLocalError "default_marking_scheme")
    end;
  let question_marking_scheme :=
    default fallback (QUESTION_WISE_SCHEMES !! question) in
  '(delta, question_verdict) ←
    at_section question_marking_scheme
      (match_answer marked_answer correct_answer);
  conditionally_add_explanation correct_answer delta marked_answer
    question_marking_scheme question_verdict question score;;
  lift_result (float_add_value score delta).

Definition evaluate_concatenated_response
    (concatenated_response : gmap string string) : M world float :=
  validate_all concatenated_response;;
  w ← get_state;
  let questions_in_order := questions_in_order (evaluation_config w) in
  let answers_in_order := answers_in_order (evaluation_config w) in
  let marking_scheme := marking_scheme (evaluation_config w) in
  '(QUESTION_WISE_SCHEMES, default_marking_scheme) ←
    lift_result (route_questions marking_scheme);
  score ←
    for_fold
      (λ score '(q_index, question),
         score_question concatenated_response answers_in_order
           QUESTION_WISE_SCHEMES default_marking_scheme
           score q_index question)
      0%float (enumerate questions_in_order);
  conditionally_print_explanation;;
  mret score.

End Evaluation.

(** * Notions used in the statements *)

(** [s] is empty or starts with a character outside the class [cls]. *)
Definition head_outside (cls : ascii → bool) (s : string) : Prop :=
  match s with
  | EmptyString => True
  | String c _ => cls c = false
  end.

(** The verdict of [get_question_verdict], as a function of the section. *)
Definition verdict_of (self : SectionMarkingScheme)
    (marked_answer correct_answer : string) : verdict :=
  if decide (marked_answer = empty_val self) then unmarked
  else if decide (marked_answer = correct_answer) then correct
  else incorrect.

(** The delta as the design notes word it: the constant, or
    [schedule[min(peek_count, len(schedule) - 1)]]. *)
Definition peek_delta (rule : marking_value) (peek_count : Z)
    : result marking_value :=
  match rule with
  | MarkList schedule =>
      MarkNumber <$>
      py_list_index schedule
        (Z.min peek_count (Z.of_nat (length schedule) - 1))
  | constant => Returned constant
  end.

(** The commit as the design notes word it: this verdict's counter becomes
    the peeked count plus one, the other two become zero. *)
Definition commit_streak (v : verdict) (counters : per_verdict Z)
    : per_verdict Z :=
  let peek_count := pv_get counters v in
  PerVerdict (if decide (v = correct) then peek_count + 1 else 0)
             (if decide (v = incorrect) then peek_count + 1 else 0)
             (if decide (v = unmarked) then peek_count + 1 else 0).

(** The commits of a sequence of verdicts, first to last. *)
Definition commit_all (vs : list verdict) (counters : per_verdict Z)
    : per_verdict Z :=
  foldl (λ c v, commit_streak v c) counters vs.

(** [match_answer] on a sequence of (marked, correct) answers, in order. *)
Fixpoint match_answers (answers : list (string * string))
    : M SectionMarkingScheme (list (marking_value * verdict)) :=
  match answers with
  | [] => mret []
  | (marked_answer, correct_answer) :: answers' =>
      r ← match_answer marked_answer correct_answer;
      rs ← match_answers answers';
      mret (r :: rs)
  end.

(** The state after one more record went to the logger. *)
Definition add_log (r : log_record) (w : world) : world :=
  {| evaluation_config := evaluation_config w;
     log_records := log_records w ++ [r];
     console := console w |}.

(** The question ids a section lists, as a set. *)
Definition section_set (s : SectionMarkingScheme) : gset string :=
  list_to_set (default [] (questions s)).

Definition update_section (ref : nat) (key : string)
    (section : SectionMarkingScheme) (w : world) : world :=
  with_config
    (set_marking_scheme
       (<[ref := (key, section)]> (marking_scheme (evaluation_config w)))) w.

Definition append_row (row : explanation_row) (w : world) : world :=
  with_config
    (λ cfg, set_explanation_table (explanation_table cfg ++ [row]) cfg) w.

(** The row [conditionally_add_explanation] adds for a question. *)
Definition explanation_row_of (question marked_answer correct_answer : string)
    (question_verdict : verdict) (delta : marking_value) (next_score : float)
    (section : SectionMarkingScheme) : explanation_row :=
  {| row_question := question;
     row_marked := marked_answer;
     row_correct := correct_answer;
     row_verdict := question_verdict;
     row_delta := delta;
     row_score := next_score;
     row_section := section_key section;
     row_streak := pv_get (streaks section) question_verdict |}.

(** One iteration of the scoring loop, as a decision list. *)
Definition score_question_outcome (concatenated_response : gmap string string)
    (answers_in_order : list string) (QUESTION_WISE_SCHEMES : gmap string nat)
    (default_marking_scheme : option nat) (score : float) (q_index : nat)
    (question : string) (w : world) : result float * world :=
  match answers_in_order !! q_index with
  | None => (Raised PyIndexError, w)
  | Some correct_answer =>
      match concatenated_response !! question with
      | None => (Raised (PyKeyError question), w)
      | Some marked_answer =>
          match default_marking_scheme with
          | None => (Raised (PyUnboundLocalError "default_marking_scheme"), w)
          | Some fallback =>
              let ref := default fallback (QUESTION_WISE_SCHEMES !! question) in
              match marking_scheme (evaluation_config w) !! ref with
              | None => (Raised PyIndexError, w)
              | Some (key, s) =>
                  let v := verdict_of s marked_answer correct_answer in
                  match peek_delta (pv_get (marking s) v)
                          (pv_get (streaks s) v) with
                  | inl e => (Raised e, w)
                  | inr delta =>
                      let s' := set_streaks (commit_streak v) s in
                      let w1 := update_section ref key s' w in
                      match float_add_value score delta with
                      | inl e => (Raised e, w1)
                      | inr next_score =>
                          (Returned next_score,
                           if should_explain_scoring (evaluation_config w)
                           then append_row
                                  (explanation_row_of question marked_answer
                                     correct_answer v delta next_score s') w1
                           else w1)
                      end
                  end
              end
          end
      end
  end.

(** The second loop of [evaluate_concatenated_response]. *)
Definition scoring_loop (concatenated_response : gmap string string)
    (answers_in_order : list string) (QUESTION_WISE_SCHEMES : gmap string nat)
    (default_marking_scheme : option nat) (score : float)
    (indexed_questions : list (nat * string)) : M world float :=
  for_fold
    (λ score '(q_index, question),
       score_question concatenated_response answers_in_order
         QUESTION_WISE_SCHEMES default_marking_scheme score q_index question)
    score indexed_questions.

(** The verdicts of the questions that the section at position [i] scores,
    in the order of the answer key. *)
Fixpoint scored_verdicts (concatenated_response : gmap string string)
    (answers_in_order : list string) (QUESTION_WISE_SCHEMES : gmap string nat)
    (default_marking_scheme : option nat) (i : nat) (s : SectionMarkingScheme)
    (indexed_questions : list (nat * string)) : list verdict :=
  match indexed_questions with
  | [] => []
  | (q_index, question) :: rest =>
      let more :=
        scored_verdicts concatenated_response answers_in_order
          QUESTION_WISE_SCHEMES default_marking_scheme i s rest in
      match answers_in_order !! q_index, concatenated_response !! question,
            default_marking_scheme with
      | Some correct_answer, Some marked_answer, Some fallback =>
          if decide (default fallback (QUESTION_WISE_SCHEMES !! question) = i)
          then verdict_of s marked_answer correct_answer :: more
          else more
      | _, _, _ => more
      end
  end.

Definition pass_verdicts (DEFAULT_SECTION_KEY : string)
    (concatenated_response : gmap string string) (cfg : EvaluationConfig)
    (i : nat) (s : SectionMarkingScheme) : list verdict :=
  match route_questions DEFAULT_SECTION_KEY (marking_scheme cfg) with
  | inr (QUESTION_WISE_SCHEMES, default_marking_scheme) =>
      scored_verdicts concatenated_response (answers_in_order cfg)
        QUESTION_WISE_SCHEMES default_marking_scheme i s
        (enumerate (questions_in_order cfg))
  | inl _ => []
  end.

(** A section without its streak counters, and a configuration without the
    counters of its sections and without its explanation table. *)
Definition section_frame (s : SectionMarkingScheme)
    : string * string * option (list string) * per_verdict marking_value :=
  (empty_val s, section_key s, questions s, marking s).

Definition config_frame (cfg : EvaluationConfig)
    : bool * list string * list string
      * list (string * (string * string * option (list string)
                        * per_verdict marking_value)) :=
  (should_explain_scoring cfg, questions_in_order cfg, answers_in_order cfg,
   (λ ks, (ks.1, section_frame ks.2)) <$> marking_scheme cfg).

(** [w'] differs from [w] at most in streak counters, in rows added to the
    explanation table (none when explanations are off), in the log and in
    the console. *)
Definition pass_related (w w' : world) : Prop :=
  config_frame (evaluation_config w') = config_frame (evaluation_config w)
  ∧ ∃ rows,
      explanation_table (evaluation_config w')
      = explanation_table (evaluation_config w) ++ rows
      ∧ (should_explain_scoring (evaluation_config w) = false → rows = []).

(** The claim that a pass mutates nothing but streak counters. *)
Definition only_streaks_mutated (w w' : world) : Prop :=
  config_frame (evaluation_config w') = config_frame (evaluation_config w)
  ∧ explanation_table (evaluation_config w')
    = explanation_table (evaluation_config w).

Section Notions.

Variable DEFAULT_SECTION_KEY : string.

(** The sections other than the default one, in the order of the dict. *)
Definition explicit_sections (ms : list (string * SectionMarkingScheme))
    : list (string * SectionMarkingScheme) :=
  filter (λ ks, ks.1 ≠ DEFAULT_SECTION_KEY) ms.

(** The union of the question-id sets of the explicit sections. *)
Definition covered_questions (ms : list (string * SectionMarkingScheme))
    : gset string :=
  ⋃ ((λ ks, section_set ks.2) <$> explicit_sections ms).

(** The second step of [validate_all] as a function of the sections: the
    loop reads no state and writes none. *)
Fixpoint collect_section_questions (section_questions : gset string)
    (ms : list (string * SectionMarkingScheme)) : result (gset string) :=
  match ms with
  | [] => Returned section_questions
  | (section_key, section_scheme) :: ms' =>
      if decide (section_key = DEFAULT_SECTION_KEY) then
        collect_section_questions section_questions ms'
      else
        match questions section_scheme with
        | None => Raised PyTypeError
        | Some qs =>
            if bool_decide (section_questions ## list_to_set qs) then
              collect_section_questions (section_questions ∪ list_to_set qs) ms'
            else Raised (SectionOverlapError section_key)
        end
  end.

(** The explicit sections are pairwise disjoint as sets of question ids. *)
Definition sections_pairwise_disjoint
    (ms : list (string * SectionMarkingScheme)) : Prop :=
  ∀ i j key1 s1 key2 s2,
    i ≠ j → ms !! i = Some (key1, s1) → ms !! j = Some (key2, s2) →
    key1 ≠ DEFAULT_SECTION_KEY → key2 ≠ DEFAULT_SECTION_KEY →
    section_set s1 ## section_set s2.

(** [validate_all] as a decision list. *)
Definition validate_all_outcome (omr_response : gmap string string)
    (w : world) : result unit * world :=
  let self := evaluation_config w in
  let answer_key_questions : gset string :=
    list_to_set (questions_in_order self) in
  if decide (length (questions_in_order self) ≠ length (answers_in_order self))
  then (Raised AnswerKeyLengthError,
        add_log (Critical_answer_key (questions_in_order self)
                   (answers_in_order self)) w)
  else
    match collect_section_questions ∅ (marking_scheme self) with
    | inl e => (Raised e, w)
    | inr section_questions =>
        if decide (answer_key_questions ≠ section_questions) then
          if decide (section_questions ⊆ answer_key_questions) then
            (Raised (SchemeCoverageError MissingFromMarkingScheme),
             add_log (Critical_missing_marking_scheme
                        (py_sorted (answer_key_questions ∖ section_questions))) w)
          else
            (Raised (SchemeCoverageError MissingFromAnswerKey),
             add_log (Critical_missing_answer_key
                        (py_sorted (section_questions ∖ answer_key_questions))) w)
        else if decide (dom omr_response ⊆ answer_key_questions) then
          (Raised ResponseCoverageError,
           add_log (Critical_missing_response
                      (py_sorted (answer_key_questions ∖ dom omr_response))) w)
        else (Returned (), w)
    end.

(** What is left of a pass once [validate_all] has returned. *)
Definition scoring_pass (concatenated_response : gmap string string)
    : M world float :=
  w ← get_state;
  '(QUESTION_WISE_SCHEMES, default_marking_scheme) ←
    lift_result
      (route_questions DEFAULT_SECTION_KEY
         (marking_scheme (evaluation_config w)));
  score ←
    scoring_loop concatenated_response
      (answers_in_order (evaluation_config w))
      QUESTION_WISE_SCHEMES default_marking_scheme 0%float
      (enumerate (questions_in_order (evaluation_config w)));
  conditionally_print_explanation;;
  mret score.

End Notions.

(** ** Sample configurations *)

Definition new_section (key : string) (section_questions : option (list string))
    (rules : per_verdict marking_value) : SectionMarkingScheme :=
  {| empty_val := "";
     section_key := key;
     streaks := PerVerdict 0 0 0;
     questions := section_questions;
     marking := rules |}.

Definition new_config (explain : bool) (ids answers : list string)
    (ms : list (string * SectionMarkingScheme)) : EvaluationConfig :=
  {| should_explain_scoring := explain;
     explanation_table := [];
     questions_in_order := ids;
     answers_in_order := answers;
     marking_scheme := ms |}.

Definition new_world (cfg : EvaluationConfig) : world :=
  {| evaluation_config := cfg; log_records := []; console := [] |}.

(** The marking [{correct: 1, incorrect: -0.25, unmarked: 0}], as written in
    the evaluation file and as parsed. *)
Definition quarter_penalty_json : per_verdict json :=
  PerVerdict (JNumber (PyInt 1)) (JNumber (PyFloat (-0.25))) (JNumber (PyInt 0)).

Definition quarter_penalty : per_verdict marking_value :=
  PerVerdict (MarkNumber (PyInt 1)) (MarkNumber (PyFloat (-0.25)))
             (MarkNumber (PyInt 0)).

(** Answer key [(q1, A), (q2, B)] and the default section alone. *)
Definition default_only_json (DEFAULT_SECTION_KEY : string)
    : evaluation_json :=
  {| json_should_explain_scoring := None;
     json_source := SourceInline ["q1"; "q2"] ["A"; "B"];
     json_marking_scheme :=
       [(DEFAULT_SECTION_KEY, SchemeShorthand quarter_penalty_json)] |}.

Definition default_only_config (DEFAULT_SECTION_KEY : string)
    : EvaluationConfig :=
  new_config false ["q1"; "q2"] ["A"; "B"]
    [(DEFAULT_SECTION_KEY, new_section DEFAULT_SECTION_KEY None quarter_penalty)].

(** The same answer key with the default section and one explicit section
    that lists both questions. *)
Definition one_section_config (explain : bool) : EvaluationConfig :=
  new_config explain ["q1"; "q2"] ["A"; "B"]
    [("DEFAULT", new_section "DEFAULT" None quarter_penalty);
     ("SECTION_1", new_section "SECTION_1" (Some ["q1"; "q2"]) quarter_penalty)].

(** The same answer key with two explicit sections and the default one. *)
Definition two_section_config : EvaluationConfig :=
  new_config false ["q1"; "q2"] ["A"; "B"]
    [("SECTION_1", new_section "SECTION_1" (Some ["q1"]) quarter_penalty);
     ("DEFAULT", new_section "DEFAULT" None quarter_penalty);
     ("SECTION_2", new_section "SECTION_2" (Some ["q2"]) quarter_penalty)].

(** The same answer key with one explicit section and no default one. *)
Definition no_default_config : EvaluationConfig :=
  new_config false ["q1"; "q2"] ["A"; "B"]
    [("SECTION_1", new_section "SECTION_1" (Some ["q1"; "q2"]) quarter_penalty)].

Definition response_A_C : gmap string string :=
  <["q1" := "A"]> (<["q2" := "C"]> ∅).

Definition response_all_correct : gmap string string :=
  <["q1" := "A"]> (<["q2" := "B"]> (<["q3" := "D"]> ∅)).

(** Responses: the answer-key ids and one more; one answer-key id missing and
    an unknown id in its place. *)
Definition response_with_extra : gmap string string :=
  <["q1" := "A"]> (<["q2" := "C"]> (<["q3" := "D"]> ∅)).

Definition response_without_q1 : gmap string string :=
  <["q2" := "C"]> (<["q3" := "D"]> ∅).

(** The marking [{correct: 1, incorrect: [0, -1, -2], unmarked: 0}]. *)
Definition schedule_json : per_verdict json :=
  PerVerdict (JNumber (PyInt 1))
             (JArray [JNumber (PyInt 0); JNumber (PyInt (-1));
                      JNumber (PyInt (-2))])
             (JNumber (PyInt 0)).

(** The section that [SectionMarkingScheme.__init__] builds from it. *)
Definition parsed_schedule_section : SectionMarkingScheme :=
  new_section "SECTION_1" (Some ["q1"; "q2"; "q3"; "q4"])
    (PerVerdict (MarkNumber (PyInt 1))
                (MarkMapObject [JNumber (PyInt 0); JNumber (PyInt (-1));
                                JNumber (PyInt (-2))])
                (MarkNumber (PyInt 0))).

(** The section the schedule was meant to give: a list of numbers. *)
Definition list_schedule_section : SectionMarkingScheme :=
  new_section "SECTION_1" (Some ["q1"; "q2"; "q3"; "q4"])
    (PerVerdict (MarkNumber (PyInt 1))
                (MarkList [PyInt 0; PyInt (-1); PyInt (-2)])
                (MarkNumber (PyInt 0))).

(** ** Notions for the further properties *)

(** Counters as the code keeps them: none negative, at most one non-zero. *)
Definition streaks_exclusive (counters : per_verdict Z) : Prop :=
  (0 ≤ on_correct counters ∧ 0 ≤ on_incorrect counters
   ∧ 0 ≤ on_unmarked counters)
  ∧ (on_correct counters = 0 ∧ on_incorrect counters = 0
     ∨ on_correct counters = 0 ∧ on_unmarked counters = 0
     ∨ on_incorrect counters = 0 ∧ on_unmarked counters = 0).

(** No verdict of the marking is held as a [list]. *)
Definition no_list_marking (rules : per_verdict marking_value) : Prop :=
  ∀ v items, pv_get rules v ≠ MarkList items.

(** [l[min(n, len(l) - 1)]] for a count [n] that is not negative; the
    default is only returned for an empty list. *)
Definition schedule_entry (schedule : list pynum) (n : nat) : pynum :=
  nth (Nat.min n (length schedule - 1)) schedule (PyInt 0).

(** The string has two dots in a row somewhere. *)
Fixpoint has_double_dot (s : string) : bool :=
  match s with
  | EmptyString => false
  | String c s' =>
      match s' with
      | String c' _ => (is_dot c && is_dot c') || has_double_dot s'
      | EmptyString => false
      end
  end.

Section MarkingNotions.

Variable BONUS_SECTION_PREFIX : string.
Variable py_float : string → result float.
Variable py_float_of_Fraction : string → result float.

(** What [parse_scheme_marking] stores for one verdict. *)
Definition parsed_marking_value (raw : json) : result marking_value :=
  match raw with
  | JString text =>
      (λ f, MarkNumber (PyFloat f)) <$>
      parse_float_or_fraction py_float py_float_of_Fraction text
  | JNumber n => Returned (MarkNumber n)
  | JArray items => Returned (MarkMapObject items)
  end.

(** The warning, if any, that the incorrect verdict's value gives rise to in
    the section [key]. *)
Definition incorrect_warning (key : string) (raw : json) : list log_record :=
  match raw with
  | JString text =>
      match parse_float_or_fraction py_float py_float_of_Fraction text with
      | inr f =>
          if (0 <? f)%float && negb (startswith key BONUS_SECTION_PREFIX)
          then [Warning_positive_incorrect f key] else []
      | inl _ => []
      end
  | _ => []
  end.

End MarkingNotions.




(** What a row says of the question at position [q_index] of the answer key
    when section [s] scored it: the question, the two answers, the section's
    own key, the verdict, and a counter that is one more than the count the
    delta was resolved at. *)
Definition row_of_question (concatenated_response : gmap string string)
    (answers_in_order : list string) (s : SectionMarkingScheme)
    (q_index : nat) (question : string) (row : explanation_row) : Prop :=
  row_question row = question
  ∧ answers_in_order !! q_index = Some (row_correct row)
  ∧ concatenated_response !! question = Some (row_marked row)
  ∧ row_section row = section_key s
  ∧ row_verdict row = verdict_of s (row_marked row) (row_correct row)
  ∧ peek_delta (pv_get (marking s) (row_verdict row)) (row_streak row - 1)
    = Returned (row_delta row).

(** Every verdict of the marking is a number that float addition takes: a
    float, or an int in the range of a double. *)
Definition numeric_marking (rules : per_verdict marking_value) : Prop :=
  ∀ v, match pv_get rules v with
       | MarkNumber (PyFloat _) => True
       | MarkNumber (PyInt z) => ∃ f, float_of_int z = Returned f
       | MarkList _ | MarkMapObject _ => False
       end.

(** * Properties *)

(** ** Strings and the range pattern *)

Lemma run_length_app cls a b :
  string_forall cls a = true → head_outside cls b →
  run_length cls (a +:+ b) = String.length a.
Proof.
  induction a as [|c a IH]; simpl; intros Ha Hb.
  - destruct b as [|c b]; simpl in *; [done|by rewrite Hb].
  - apply andb_prop in Ha as [-> Ha]. by rewrite IH.
Qed.

Lemma run_length_all cls a :
  string_forall cls a = true → run_length cls a = String.length a.
Proof.
  induction a as [|c a IH]; simpl; [done|].
  intros [-> Ha]%andb_prop. by rewrite IH.
Qed.

Lemma string_drop_app a b : string_drop (String.length a) (a +:+ b) = b.
Proof. induction a; simpl; [by destruct b|done]. Qed.

Lemma string_take_app a b : string_take (String.length a) (a +:+ b) = a.
Proof. induction a; simpl; [by destruct b|by f_equal]. Qed.

Lemma string_drop_all a : string_drop (String.length a) a = "".
Proof. induction a; simpl; done. Qed.

Lemma string_take_all a : string_take (String.length a) a = a.
Proof. induction a; simpl; [done|by f_equal]. Qed.

Lemma re_backtrack_first {A} (k : nat → option A) base extra r :
  k (base + extra)%nat = Some r → re_backtrack k base extra = Some r.
Proof. intros H. destruct extra; simpl; by rewrite H. Qed.

Lemma digit_not_dot c : is_digit c = true → is_dot c = false.
Proof.
  destruct c as [[] [] [] [] [] [] [] []]; vm_compute; congruence.
Qed.

Lemma digit_not_prefix_char c : is_digit c = true → is_prefix_char c = false.
Proof.
  unfold is_prefix_char. intros ->. by rewrite orb_true_r.
Qed.

Lemma head_outside_digits cls d rest :
  (∀ c, is_digit c = true → cls c = false) →
  d ≠ "" → string_forall is_digit d = true →
  head_outside cls (d +:+ rest).
Proof.
  intros Hcls Hd Hall. destruct d as [|c d]; [done|]. simpl in *.
  apply andb_prop in Hall as [Hc _]. by apply Hcls.
Qed.

Lemma head_outside_digit_string cls d :
  (∀ c, is_digit c = true → cls c = false) →
  string_forall is_digit d = true → head_outside cls d.
Proof.
  intros Hcls Hall. destruct d as [|c d]; [done|]. simpl in *.
  apply andb_prop in Hall as [Hc _]. by apply Hcls.
Qed.

Lemma string_length_pos s : s ≠ "" → (1 <= String.length s)%nat.
Proof. destruct s; simpl; [done|lia]. Qed.

(** A token [<prefix><start>..<end>] or [<prefix><start>...<end>] is matched
    at its first character, and the groups are its three parts. *)
Lemma range_pattern_match prefix start dots stop :
  prefix ≠ "" → string_forall is_prefix_char prefix = true →
  start ≠ "" → string_forall is_digit start = true →
  stop ≠ "" → string_forall is_digit stop = true →
  dots = ".." ∨ dots = "..." →
  re_match_here range_pattern (prefix +:+ start +:+ dots +:+ stop)
  = Some ([prefix; start; stop], "").
Proof.
  intros Hp Hpc Hs Hsd He Hed Hdots.
  pose proof (string_length_pos _ Hp) as Lp.
  pose proof (string_length_pos _ Hs) as Ls.
  pose proof (string_length_pos _ He) as Le.
  assert (Hdl : string_forall is_dot dots = true
                ∧ (String.length dots = 2 ∨ String.length dots = 3)%nat).
  { destruct Hdots as [-> | ->]; split; auto. }
  destruct Hdl as [Hdd Hdl].
  unfold range_pattern.
  (* the prefix *)
  cbn [re_match_here re_class rep_min rep_max re_capture].
  rewrite (run_length_app is_prefix_char prefix); [|done|].
  2:{ apply head_outside_digits; auto using digit_not_prefix_char. }
  destruct (String.length prefix <? 1)%nat eqn:E1;
    [apply Nat.ltb_lt in E1; lia|clear E1].
  apply re_backtrack_first.
  replace (1 + (String.length prefix - 1))%nat with (String.length prefix) by lia.
  rewrite string_drop_app, string_take_app.
  (* the first number *)
  rewrite (run_length_app is_digit start); [|done|].
  2:{ destruct Hdots as [-> | ->]; simpl; reflexivity. }
  destruct (String.length start <? 1)%nat eqn:E2;
    [apply Nat.ltb_lt in E2; lia|clear E2].
  rewrite (re_backtrack_first _ _ _ ([start; stop], "")); [done|].
  replace (1 + (String.length start - 1))%nat with (String.length start) by lia.
  rewrite string_drop_app, string_take_app.
  (* the dots *)
  rewrite (run_length_app is_dot dots); [|done|].
  2:{ apply head_outside_digit_string; auto using digit_not_dot. }
  replace (3 `min` String.length dots)%nat with (String.length dots) by lia.
  destruct (String.length dots <? 2)%nat eqn:E3;
    [apply Nat.ltb_lt in E3; lia|clear E3].
  rewrite (re_backtrack_first _ _ _ ([stop], "")); [done|].
  replace (2 + (String.length dots - 2))%nat with (String.length dots) by lia.
  rewrite string_drop_app.
  (* the second number *)
  rewrite (run_length_all is_digit stop) by done.
  destruct (String.length stop <? 1)%nat eqn:E4;
    [apply Nat.ltb_lt in E4; lia|clear E4].
  rewrite (re_backtrack_first _ _ _ ([stop], "")); [done|].
  replace (1 + (String.length stop - 1))%nat with (String.length stop) by lia.
  by rewrite string_drop_all, string_take_all.
Qed.

Lemma range_pattern_findall prefix start dots stop :
  prefix ≠ "" → string_forall is_prefix_char prefix = true →
  start ≠ "" → string_forall is_digit start = true →
  stop ≠ "" → string_forall is_digit stop = true →
  dots = ".." ∨ dots = "..." →
  ∃ more,
    re_findall range_pattern (prefix +:+ start +:+ dots +:+ stop)
    = [prefix; start; stop] :: more.
Proof.
  intros. unfold re_findall. cbn [re_findall_from].
  rewrite range_pattern_match by done. eauto.
Qed.

Lemma string_exists_app_r p a b :
  string_exists p b = true → string_exists p (a +:+ b) = true.
Proof.
  intros Hb. induction a as [|c a IH]; simpl; [done|].
  rewrite IH. apply orb_true_r.
Qed.

Lemma string_exists_app_l p a b :
  string_exists p a = true → string_exists p (a +:+ b) = true.
Proof.
  induction a as [|c a IH]; simpl; [done|].
  intros [->| H]%orb_prop; [done|]. rewrite IH by done. apply orb_true_r.
Qed.

(** ** RangeParser *)

(** C8: [parse_question_string "Q1...5"] is exactly [Q1 .. Q5], and a range
    token [<prefix><start>..<end>] or [<prefix><start>...<end>] whose start
    is greater than or equal to its end raises the range-definition error
    instead of returning a list; the same holds of every token in which the
    pattern finds such a range first. *)
Theorem parse_question_string_range :
  parse_question_string "Q1...5" = Returned ["Q1"; "Q2"; "Q3"; "Q4"; "Q5"]
  ∧ (∀ prefix start dots stop,
       prefix ≠ "" → string_forall is_prefix_char prefix = true →
       start ≠ "" → string_forall is_digit start = true →
       stop ≠ "" → string_forall is_digit stop = true →
       dots = ".." ∨ dots = "..." →
       (int_of_digits stop <= int_of_digits start)%N →
       parse_question_string (prefix +:+ start +:+ dots +:+ stop)
       = Raised (RangeDefinitionError (prefix +:+ start +:+ dots +:+ stop)
                   (int_of_digits start) (int_of_digits stop)))
  ∧ (∀ question_string prefix start stop more,
       string_exists is_dot question_string = true →
       re_findall range_pattern question_string
       = [prefix; start; stop] :: more →
       (int_of_digits stop <= int_of_digits start)%N →
       parse_question_string question_string
       = Raised (RangeDefinitionError question_string
                   (int_of_digits start) (int_of_digits stop))).
Proof.
  split; [by vm_compute|].
  assert (Hgen : ∀ question_string prefix start stop more,
             string_exists is_dot question_string = true →
             re_findall range_pattern question_string
             = [prefix; start; stop] :: more →
             (int_of_digits stop <= int_of_digits start)%N →
             parse_question_string question_string
             = Raised (RangeDefinitionError question_string
                         (int_of_digits start) (int_of_digits stop))).
  { intros q prefix start stop more Hdot Hfind Hle.
    unfold parse_question_string. rewrite Hdot, Hfind.
    apply N.leb_le in Hle. by rewrite Hle. }
  split; [|exact Hgen].
  intros prefix start dots stop Hp Hpc Hs Hsd He Hed Hdots Hle.
  destruct (range_pattern_findall prefix start dots stop) as [more Hfind];
    try done.
  apply (Hgen _ prefix start stop more); [|done|done].
  apply string_exists_app_r, string_exists_app_r, string_exists_app_l.
  by destruct Hdots as [-> | ->].
Qed.

Lemma parse_question_string_range_witness :
  parse_question_string "Q5...1" = Raised (RangeDefinitionError "Q5...1" 5 1).
Proof.
  apply (proj1 (proj2 parse_question_string_range) "Q" "5" "..." "1");
    first [ discriminate | reflexivity | by right | by vm_compute ].
Defined.

Lemma parse_question_string_errors question_string e :
  parse_question_string question_string = Raised e →
  match e with
  | PyIndexError | PyValueError => True
  | RangeDefinitionError token _ _ => token = question_string
  | _ => False
  end.
Proof.
  unfold parse_question_string.
  repeat case_match; intros Hraised; inversion Hraised; subst; done.
Qed.

(** The loop of [parse_questions] compares every expansion with a set that
    stays empty, so it only chains the expansions. *)
Lemma parse_questions_chain key questions acc :
  for_result
    (λ parsed_questions question_string,
       questions_array ← parse_question_string question_string;
       let current_set : gset string := list_to_set questions_array in
       if bool_decide ((∅ : gset string) ## current_set) then
         Returned (parsed_questions ++ questions_array)
       else
         Raised (QuestionOverlapError question_string key questions))
    acc questions
  = for_result
      (λ parsed_questions question_string,
         questions_array ← parse_question_string question_string;
         Returned (parsed_questions ++ questions_array))
      acc questions.
Proof.
  generalize questions at 1 as all_questions. intros all_questions.
  revert acc. induction questions as [|q qs IH]; intros acc; simpl; [done|].
  destruct (parse_question_string q) as [e|arr]; simpl; [done|].
  rewrite bool_decide_eq_true_2 by set_solver. simpl. apply IH.
Qed.

(** C4: [parse_questions] never raises the overlap error: two tokens with a
    common question id are both accepted, and the result repeats the id. *)
Theorem parse_questions_accepts_overlap :
  parse_questions "SECTION_1" ["q1"; "q1"] = Returned ["q1"; "q1"]
  ∧ parse_questions "SECTION_1" ["q1..3"; "q2"]
    = Returned ["q1"; "q2"; "q3"; "q2"]
  ∧ ∀ key questions question_string key' questions',
      parse_questions key questions
      ≠ Raised (QuestionOverlapError question_string key' questions').
Proof.
  split; [by vm_compute|]. split; [by vm_compute|].
  intros key questions q key' questions'.
  unfold parse_questions. rewrite parse_questions_chain.
  generalize (@nil string) as acc.
  induction questions as [|q0 qs IH]; intros acc; simpl; [done|].
  destruct (parse_question_string q0) as [e|arr] eqn:E; simpl; [|apply IH].
  intros [= ->]. by apply parse_question_string_errors in E.
Qed.

(** ** SectionMarkingScheme *)

Lemma bind_run {St A B} (m : M St A) (f : A → M St B) st :
  (m ≫= f) st
  = match m st with
    | (inl e, st') => (inl e, st')
    | (inr x, st') => f x st'
    end.
Proof. reflexivity. Qed.

Lemma py_list_index_head {A} (x : A) l : py_list_index (x :: l) 0 = Returned x.
Proof.
  unfold py_list_index. cbn [length]. cbn [Z.ltb Z.compare].
  destruct (Z.of_nat (S (length l)) <=? 0) eqn:E; [apply Z.leb_le in E; lia|].
  reflexivity.
Qed.

Lemma peek_delta_first first rest :
  peek_delta (MarkList (first :: rest)) 0 = Returned (MarkNumber first).
Proof.
  unfold peek_delta. cbn [length].
  rewrite Z.min_l by lia. by rewrite py_list_index_head.
Qed.

Ltac run_monad :=
  unfold mbind, M_bind, mret, M_ret, raise, get_state, put_state,
    modify_state, lift_result in *; simpl in *.

Lemma get_question_verdict_run marked_answer correct_answer self :
  get_question_verdict marked_answer correct_answer self
  = (Returned (verdict_of self marked_answer correct_answer), self).
Proof.
  unfold get_question_verdict, verdict_of. run_monad.
  repeat case_decide; done.
Qed.

Lemma update_streaks_for_verdict_run v self :
  update_streaks_for_verdict v self
  = (Returned (), set_streaks (commit_streak v) self).
Proof.
  destruct self as [ev key [c i u] qs mk].
  unfold update_streaks_for_verdict, commit_streak, set_streaks.
  destruct v; reflexivity.
Qed.

Lemma match_answer_run marked_answer correct_answer self :
  let v := verdict_of self marked_answer correct_answer in
  match_answer marked_answer correct_answer self
  = match peek_delta (pv_get (marking self) v) (pv_get (streaks self) v) with
    | inr delta => (Returned (delta, v), set_streaks (commit_streak v) self)
    | inl e => (Raised e, self)
    end.
Proof.
  intros v. unfold match_answer.
  rewrite bind_run, get_question_verdict_run. fold v.
  rewrite bind_run. unfold get_state at 1. cbv beta iota.
  rewrite bind_run. unfold peek_delta.
  destruct (pv_get (marking self) v) as [n|items|pending].
  - unfold mret at 1, M_ret at 1.
    by rewrite bind_run, update_streaks_for_verdict_run.
  - unfold lift_result.
    destruct (py_list_index items _) as [e|d]; [done|].
    cbn [fmap result_fmap].
    by rewrite bind_run, update_streaks_for_verdict_run.
  - unfold mret at 1, M_ret at 1.
    by rewrite bind_run, update_streaks_for_verdict_run.
Qed.

(** C6: [match_answer] reads the verdict's counter before it updates any
    counter. The delta it returns is resolved against the count the section
    had before the call (a count of zero gives the first entry of a
    schedule); when it returns, the verdict's counter is that count plus one
    and the other two counters are zero, and nothing else of the section has
    changed; when resolving the delta raises, no counter has changed. *)
Theorem match_answer_peek_before_commit :
  ∀ (self : SectionMarkingScheme) (marked_answer correct_answer : string),
    let v := verdict_of self marked_answer correct_answer in
    let peek_count := pv_get (streaks self) v in
    let outcome := (match_answer marked_answer correct_answer self).1 in
    let self' := (match_answer marked_answer correct_answer self).2 in
    outcome = (λ delta, (delta, v)) <$> peek_delta (pv_get (marking self) v) peek_count
    ∧ match outcome with
      | inr _ =>
          pv_get (streaks self') v = peek_count + 1
          ∧ (∀ v', v' ≠ v → pv_get (streaks self') v' = 0)
      | inl _ => streaks self' = streaks self
      end
    ∧ empty_val self' = empty_val self
    ∧ section_key self' = section_key self
    ∧ questions self' = questions self
    ∧ marking self' = marking self
    ∧ (∀ first rest,
         pv_get (marking self) v = MarkList (first :: rest) →
         peek_count = 0 → outcome = Returned (MarkNumber first, v)).
Proof.
  intros self marked_answer correct_answer v peek_count outcome self'.
  subst outcome self'. rewrite match_answer_run. fold v. fold peek_count.
  destruct (peek_delta _ _) as [e|delta] eqn:E; simpl.
  - repeat split; try done. intros first rest Hm Hz.
    rewrite Hm, Hz, peek_delta_first in E. done.
  - repeat split; try done.
    + unfold commit_streak. fold peek_count. by destruct v.
    + intros v' Hv'. unfold commit_streak. by destruct v, v'.
    + intros first rest Hm Hz.
      rewrite Hm, Hz, peek_delta_first in E. congruence.
Qed.

(** ** EvaluationConfig.validate_all *)

Section ValidateAll.

Variable DEFAULT_SECTION_KEY : string.

Lemma log_in_world_run r w : log_in_world r w = (Returned (), add_log r w).
Proof. reflexivity. Qed.

Lemma section_loop_run ms : ∀ (acc : gset string) (w : world),
  for_fold
    (λ (section_questions : gset string) '(section_key, section_scheme),
       if decide (section_key = DEFAULT_SECTION_KEY) then
         mret section_questions
       else
         match questions section_scheme with
         | None => raise PyTypeError
         | Some section_scheme_questions =>
             let current_set : gset string :=
               list_to_set section_scheme_questions in
             if bool_decide (section_questions ## current_set) then
               mret (section_questions ∪ current_set)
             else raise (SectionOverlapError section_key)
         end)
    acc ms w
  = (collect_section_questions DEFAULT_SECTION_KEY acc ms, w).
Proof.
  induction ms as [|[key s] ms IH]; intros acc w; [done|].
  cbn [for_fold collect_section_questions]. rewrite bind_run.
  case_decide; [apply IH|].
  destruct (questions s) as [qs|]; [|done].
  cbv zeta. case_bool_decide; [apply IH|done].
Qed.

Lemma validate_all_run omr_response w :
  validate_all DEFAULT_SECTION_KEY omr_response w
  = validate_all_outcome DEFAULT_SECTION_KEY omr_response w.
Proof.
  unfold validate_all, validate_all_outcome.
  rewrite bind_run. unfold get_state at 1. cbv beta iota zeta.
  rewrite bind_run. case_decide.
  { by rewrite bind_run, log_in_world_run. }
  unfold mret at 1, M_ret at 1. cbv beta iota.
  rewrite bind_run, section_loop_run.
  destruct (collect_section_questions DEFAULT_SECTION_KEY _ _) as [e|section_questions]; [done|].
  rewrite bind_run. case_bool_decide; case_decide; try done.
  - case_bool_decide; case_decide; try done;
      by rewrite bind_run, log_in_world_run.
  - unfold mret at 1, M_ret at 1. cbv beta iota.
    case_bool_decide; case_decide; done.
Qed.

Lemma covered_questions_nil : covered_questions DEFAULT_SECTION_KEY [] = ∅.
Proof. reflexivity. Qed.

Lemma covered_questions_cons key s ms :
  covered_questions DEFAULT_SECTION_KEY ((key, s) :: ms)
  = if decide (key = DEFAULT_SECTION_KEY) then covered_questions DEFAULT_SECTION_KEY ms
    else section_set s ∪ covered_questions DEFAULT_SECTION_KEY ms.
Proof.
  unfold covered_questions, explicit_sections.
  rewrite filter_cons. cbn [fst]. by repeat case_decide.
Qed.

Lemma section_set_covered ms i key s :
  ms !! i = Some (key, s) → key ≠ DEFAULT_SECTION_KEY →
  section_set s ⊆ covered_questions DEFAULT_SECTION_KEY ms.
Proof.
  revert i. induction ms as [|[k0 s0] ms IH]; intros i Hi Hkey; [done|].
  rewrite covered_questions_cons. destruct i as [|i]; simpl in Hi.
  - injection Hi as -> ->. rewrite decide_False by done. set_solver.
  - specialize (IH i Hi Hkey). case_decide; set_solver.
Qed.

Lemma elem_of_covered_questions ms q :
  q ∈ covered_questions DEFAULT_SECTION_KEY ms ↔
  ∃ i key s, ms !! i = Some (key, s) ∧ key ≠ DEFAULT_SECTION_KEY
             ∧ q ∈ section_set s.
Proof.
  split.
  - induction ms as [|[k0 s0] ms IH].
    { rewrite covered_questions_nil. by intros ?%not_elem_of_empty. }
    rewrite covered_questions_cons. case_decide as Hk.
    + intros (i & key & s & ? & ? & ?)%IH. by exists (S i), key, s.
    + intros [Hq|Hq]%elem_of_union.
      * by exists 0%nat, k0, s0.
      * destruct (IH Hq) as (i & key & s & ? & ? & ?). by exists (S i), key, s.
  - intros (i & key & s & Hi & Hkey & Hq).
    by apply (section_set_covered ms i key s).
Qed.

Lemma collect_section_questions_returned ms : ∀ acc X,
  collect_section_questions DEFAULT_SECTION_KEY acc ms = Returned X →
  X = acc ∪ covered_questions DEFAULT_SECTION_KEY ms
  ∧ acc ## covered_questions DEFAULT_SECTION_KEY ms
  ∧ sections_pairwise_disjoint DEFAULT_SECTION_KEY ms
  ∧ (∀ i key s, ms !! i = Some (key, s) → key ≠ DEFAULT_SECTION_KEY →
                is_Some (questions s)).
Proof.
  induction ms as [|[k0 s0] ms IH]; intros acc X Hrun.
  - injection Hrun as <-. rewrite covered_questions_nil.
    split; [set_solver|]. split; [set_solver|].
    split; [by intros i j ? ? ? ? _ ?|by intros i ? ? ?].
  - cbn [collect_section_questions] in Hrun.
    rewrite covered_questions_cons. case_decide as Hk.
    + destruct (IH _ _ Hrun) as (HX & Hacc & Hpw & Hqs).
      repeat split; try done.
      * intros [|i] [|j] key1 s1 key2 s2 Hij H1 H2 Hk1 Hk2;
          simpl in *; simplify_eq; try done.
        by apply (Hpw i j key1 s1 key2 s2); [congruence|..].
      * intros [|i] key s Hi Hkey; simpl in *; simplify_eq; eauto.
    + destruct (questions s0) as [qs|] eqn:Eqs; [|done].
      case_bool_decide as Hdisj; [|done].
      destruct (IH _ _ Hrun) as (HX & Hacc & Hpw & Hqs).
      assert (Hs0 : section_set s0 = list_to_set qs).
      { unfold section_set. by rewrite Eqs. }
      rewrite Hs0. repeat split.
      * set_solver.
      * set_solver.
      * intros [|i] [|j] key1 s1 key2 s2 Hij H1 H2 Hk1 Hk2;
          simpl in *; simplify_eq; try done.
        -- pose proof (section_set_covered ms j key2 s2 H2 Hk2). set_solver.
        -- pose proof (section_set_covered ms i key1 s1 H1 Hk1). set_solver.
        -- by apply (Hpw i j key1 s1 key2 s2); [congruence|..].
      * intros [|i] key s Hi Hkey; simpl in *; simplify_eq; eauto.
Qed.

Lemma validate_all_config omr_response w :
  evaluation_config (validate_all DEFAULT_SECTION_KEY omr_response w).2
  = evaluation_config w.
Proof.
  rewrite validate_all_run. unfold validate_all_outcome.
  repeat case_match; done.
Qed.

Lemma validate_all_returned omr_response w :
  (validate_all DEFAULT_SECTION_KEY omr_response w).1 = Returned () →
  validate_all DEFAULT_SECTION_KEY omr_response w = (Returned (), w)
  ∧ length (questions_in_order (evaluation_config w))
    = length (answers_in_order (evaluation_config w))
  ∧ collect_section_questions DEFAULT_SECTION_KEY ∅ (marking_scheme (evaluation_config w))
    = Returned (list_to_set (questions_in_order (evaluation_config w)))
  ∧ ¬ dom omr_response ⊆ list_to_set (questions_in_order (evaluation_config w)).
Proof.
  rewrite validate_all_run. unfold validate_all_outcome.
  case_decide as Hlen; [done|].
  destruct (collect_section_questions DEFAULT_SECTION_KEY _ _) as [e|X]; [done|].
  case_decide as Hne; [by case_decide|].
  case_decide; [done|]. intros _.
  repeat split; try done; try by apply dec_stable. by f_equal.
Qed.

Lemma evaluate_stops_at_validation omr_response w e :
  (validate_all DEFAULT_SECTION_KEY omr_response w).1 = Raised e →
  evaluate_concatenated_response DEFAULT_SECTION_KEY omr_response w
  = (Raised e, (validate_all DEFAULT_SECTION_KEY omr_response w).2).
Proof.
  intros He. unfold evaluate_concatenated_response. rewrite bind_run.
  destruct (validate_all _ _ _) as [[e'|[]] w']; simpl in *; congruence.
Qed.

End ValidateAll.

(** C5: [validate_all] enforces that the question-id sets of the explicit
    (non-default) sections are pairwise disjoint and that their union is
    exactly the set of answer-key ids. Whenever it returns, both hold; two
    overlapping explicit sections, an answer-key id that no explicit section
    lists and a section id that is not in the answer key each make it raise;
    and since [evaluate_concatenated_response] starts with [validate_all], a
    pass that raised there has scored nothing and changed no section. *)
Theorem validate_all_enforces_partition :
  ∀ (DEFAULT_SECTION_KEY : string) (omr_response : gmap string string)
    (w : world),
    let ms := marking_scheme (evaluation_config w) in
    let answer_key : gset string :=
      list_to_set (questions_in_order (evaluation_config w)) in
    let outcome := (validate_all DEFAULT_SECTION_KEY omr_response w).1 in
    (outcome = Returned () →
       sections_pairwise_disjoint DEFAULT_SECTION_KEY ms
       ∧ covered_questions DEFAULT_SECTION_KEY ms = answer_key)
    ∧ (¬ sections_pairwise_disjoint DEFAULT_SECTION_KEY ms →
       ∃ e, outcome = Raised e)
    ∧ (∀ q, q ∈ answer_key → q ∉ covered_questions DEFAULT_SECTION_KEY ms →
            ∃ e, outcome = Raised e)
    ∧ (∀ q, q ∈ covered_questions DEFAULT_SECTION_KEY ms → q ∉ answer_key →
            ∃ e, outcome = Raised e)
    ∧ (∀ e, outcome = Raised e →
         (evaluate_concatenated_response DEFAULT_SECTION_KEY omr_response w).1
         = Raised e
         ∧ evaluation_config
             (evaluate_concatenated_response DEFAULT_SECTION_KEY
                omr_response w).2
           = evaluation_config w).
Proof.
  intros DEFAULT omr_response w ms answer_key outcome.
  assert (Hok : outcome = Returned () →
                sections_pairwise_disjoint DEFAULT ms
                ∧ covered_questions DEFAULT ms = answer_key).
  { intros Hret. apply validate_all_returned in Hret as (_ & _ & Hcol & _).
    apply collect_section_questions_returned in Hcol as (HX & _ & Hpw & _).
    split; [done|]. fold answer_key in HX. fold ms in HX. set_solver. }
  assert (Hcases : outcome = Returned () ∨ ∃ e, outcome = Raised e).
  { destruct outcome as [e|[]]; eauto. }
  split; [done|]. repeat split.
  - intros Hnot. destruct Hcases as [Hret|]; [|done].
    by destruct (Hok Hret).
  - intros q Hq Hnq. destruct Hcases as [Hret|]; [|done].
    destruct (Hok Hret) as [_ Heq]. by rewrite Heq in Hnq.
  - intros q Hq Hnq. destruct Hcases as [Hret|]; [|done].
    destruct (Hok Hret) as [_ Heq]. by rewrite Heq in Hq.
  - subst outcome. by rewrite (evaluate_stops_at_validation _ _ _ e H).
  - subst outcome. rewrite (evaluate_stops_at_validation _ _ _ e H).
    apply validate_all_config.
Qed.


(** ** The scoring pass *)

Section ScoringPass.

Variable DEFAULT_SECTION_KEY : string.

Lemma evaluate_run omr_response w :
  evaluate_concatenated_response DEFAULT_SECTION_KEY omr_response w
  = match validate_all DEFAULT_SECTION_KEY omr_response w with
    | (inl e, w') => (Raised e, w')
    | (inr _, w') => scoring_pass DEFAULT_SECTION_KEY omr_response w'
    end.
Proof.
  unfold evaluate_concatenated_response. rewrite bind_run.
  by destruct (validate_all _ _ _) as [[e|[]] w'].
Qed.

Lemma scoring_loop_cons resp answers table dflt score q_index question rest w :
  scoring_loop resp answers table dflt score ((q_index, question) :: rest) w
  = match score_question resp answers table dflt score q_index question w with
    | (inl e, w') => (Raised e, w')
    | (inr score', w') => scoring_loop resp answers table dflt score' rest w'
    end.
Proof. reflexivity. Qed.

(** Routing when no section has the default key: the table is built and the
    local variable for the fallback is left unbound. *)
Lemma route_questions_no_default ms :
  (∀ i key s, ms !! i = Some (key, s) →
              key ≠ DEFAULT_SECTION_KEY ∧ is_Some (questions s)) →
  ∃ table, route_questions DEFAULT_SECTION_KEY ms = Returned (table, None).
Proof.
  unfold route_questions, enumerate.
  generalize (∅ : gmap string nat) as table. generalize 0%nat as n.
  induction ms as [|[key s] ms IH]; intros n table Hms; [by eexists|].
  cbn [enumerate_from for_result].
  destruct (Hms 0%nat key s eq_refl) as [Hkey [qs Hqs]].
  rewrite decide_False by done. rewrite Hqs. cbn [mbind result_bind].
  apply IH. intros i key' s' Hi. by apply (Hms (S i)).
Qed.

Lemma py_list_index_cons_0 {A} (x : A) l :
  py_list_index (x :: l) (Z.of_nat 0) = Returned x.
Proof. apply py_list_index_head. Qed.

Lemma score_question_unbound resp answer answers table score question marked w :
  resp !! question = Some marked →
  score_question resp (answer :: answers) table None score 0 question w
  = (Raised (PyUnboundLocalError "default_marking_scheme"), w).
Proof.
  intros Hresp. unfold score_question.
  rewrite bind_run. unfold lift_result at 1.
  rewrite py_list_index_cons_0. cbv beta iota.
  rewrite bind_run, Hresp. reflexivity.
Qed.

Lemma score_question_missing_response resp answer answers table dflt score
    question w :
  resp !! question = None →
  score_question resp (answer :: answers) table dflt score 0 question w
  = (Raised (PyKeyError question), w).
Proof.
  intros Hresp. unfold score_question.
  rewrite bind_run. unfold lift_result at 1.
  rewrite py_list_index_cons_0. cbv beta iota.
  rewrite bind_run, Hresp. reflexivity.
Qed.

End ScoringPass.

(** C10: when no section of the marking scheme has the default key, a pass
    over a non-empty answer key never returns a score; and when validation
    has passed (so every answer-key question is listed by an explicit
    section) and the response holds the first question, the pass raises the
    unbound-local error for [default_marking_scheme] at that first question,
    before any section was asked to score: the state is the one validation
    left. *)
Theorem evaluate_without_default_section :
  ∀ (DEFAULT_SECTION_KEY : string) (omr_response : gmap string string)
    (w : world) (first : string) (rest : list string),
    (∀ i key s, marking_scheme (evaluation_config w) !! i = Some (key, s) →
                key ≠ DEFAULT_SECTION_KEY) →
    questions_in_order (evaluation_config w) = first :: rest →
    (∃ e, (evaluate_concatenated_response DEFAULT_SECTION_KEY
             omr_response w).1 = Raised e)
    ∧ ((validate_all DEFAULT_SECTION_KEY omr_response w).1 = Returned () →
       is_Some (omr_response !! first) →
       covered_questions DEFAULT_SECTION_KEY
         (marking_scheme (evaluation_config w))
       = list_to_set (questions_in_order (evaluation_config w))
       ∧ evaluate_concatenated_response DEFAULT_SECTION_KEY omr_response w
         = (Raised (PyUnboundLocalError "default_marking_scheme"), w)).
Proof.
  intros DEFAULT resp w first rest Hnodef Hqs.
  assert (Hpass : (validate_all DEFAULT resp w).1 = Returned () →
            covered_questions DEFAULT (marking_scheme (evaluation_config w))
            = list_to_set (questions_in_order (evaluation_config w))
            ∧ evaluate_concatenated_response DEFAULT resp w
              = match resp !! first with
                | Some _ =>
                    (Raised (PyUnboundLocalError "default_marking_scheme"), w)
                | None => (Raised (PyKeyError first), w)
                end).
  { intros Hval.
    destruct (validate_all_returned _ _ _ Hval) as (Hrun & Hlen & Hcol & _).
    destruct (collect_section_questions_returned _ _ _ _ Hcol)
      as (HX & _ & _ & Hsome).
    split; [set_solver|].
    rewrite evaluate_run, Hrun. unfold scoring_pass.
    rewrite bind_run. unfold get_state at 1. cbv beta iota.
    destruct (route_questions_no_default DEFAULT
                (marking_scheme (evaluation_config w))) as [table Hroute].
    { intros i key s Hi. split; [by eapply Hnodef|].
      eapply Hsome; [done|by eapply Hnodef]. }
    rewrite bind_run. unfold lift_result at 1. rewrite Hroute.
    cbv beta iota. rewrite bind_run, Hqs.
    destruct (answers_in_order (evaluation_config w)) as [|answer answers]
      eqn:Hans; [by rewrite Hqs in Hlen|].
    unfold enumerate. cbn [enumerate_from]. rewrite scoring_loop_cons.
    destruct (resp !! first) as [marked|] eqn:Hresp.
    - by rewrite (score_question_unbound _ _ _ _ _ _ marked).
    - by rewrite score_question_missing_response. }
  split.
  - destruct (validate_all DEFAULT resp w).1 as [e|[]] eqn:Hval.
    + exists e. by rewrite (evaluate_stops_at_validation _ _ _ e).
    + destruct (Hpass eq_refl) as [_ ->]. destruct (resp !! first); eauto.
  - intros Hval [marked Hresp]. destruct (Hpass Hval) as [Hcov ->].
    by rewrite Hresp.
Qed.

Lemma validate_all_enforces_partition_witness :
  sections_pairwise_disjoint "DEFAULT" (marking_scheme two_section_config)
  ∧ covered_questions "DEFAULT" (marking_scheme two_section_config)
    = list_to_set (questions_in_order two_section_config).
Proof.
  apply (proj1 (validate_all_enforces_partition "DEFAULT" response_with_extra
                  (new_world two_section_config))).
  vm_compute. reflexivity.
Defined.

Lemma evaluate_without_default_section_witness :
  evaluate_concatenated_response "DEFAULT" response_with_extra
    (new_world no_default_config)
  = (Raised (PyUnboundLocalError "default_marking_scheme"),
     new_world no_default_config).
Proof.
  refine (proj2 (proj2 (evaluate_without_default_section "DEFAULT"
            response_with_extra (new_world no_default_config) "q1" ["q2"]
            _ eq_refl) _ _)).
  - intros [|[|i]] key s Hi; simpl in Hi; [|done..].
    injection Hi as <- _. discriminate.
  - vm_compute. reflexivity.
  - vm_compute. eauto.
Defined.

(** ** The default section alone *)

Lemma collect_section_questions_default_only DEFAULT_SECTION_KEY ms acc :
  (∀ i key s, ms !! i = Some (key, s) → key = DEFAULT_SECTION_KEY) →
  collect_section_questions DEFAULT_SECTION_KEY acc ms = Returned acc.
Proof.
  induction ms as [|[key s] ms IH]; intros Hms; [done|].
  cbn [collect_section_questions].
  assert (key = DEFAULT_SECTION_KEY) as Hkey by (by apply (Hms 0%nat key s)).
  rewrite decide_True by done.
  apply IH. intros i key' s' Hi. by apply (Hms (S i) key' s').
Qed.

(** Markings written as JSON numbers are kept as they are, and nothing is
    logged for them. *)
Lemma parse_scheme_marking_numbers BONUS_SECTION_PREFIX py_float
    py_float_of_Fraction key c i u (records : logger) :
  parse_scheme_marking BONUS_SECTION_PREFIX py_float py_float_of_Fraction key
    (PerVerdict (JNumber c) (JNumber i) (JNumber u)) records
  = (Returned (PerVerdict (MarkNumber c) (MarkNumber i) (MarkNumber u)),
     records).
Proof. reflexivity. Qed.

Lemma sample_questions_parsed :
  parse_questions_in_order ["q1"; "q2"] = Returned ["q1"; "q2"].
Proof. by vm_compute. Qed.

Lemma sample_answer_key_sorted :
  py_sorted (list_to_set ["q1"; "q2"] ∖ ∅) = ["q1"; "q2"].
Proof. by vm_compute. Qed.

(** C2 fails as stated: on that configuration and response the pass does not
    return 0.75. *)
Lemma evaluate_default_section_alone_not_scored :
  (evaluate_concatenated_response "DEFAULT" response_A_C
     (new_world (default_only_config "DEFAULT"))).1
  ≠ Returned 0.75%float.
Proof. vm_compute. discriminate. Qed.

(** C2, as the code has it: the configuration with answer key
    [(q1, A), (q2, B)] and the default section alone, with marking
    [{correct: 1, incorrect: -0.25, unmarked: 0}], is built without a
    warning, and on it [evaluate_concatenated_response] returns no score for
    the response [{q1: A, q2: C}]: [validate_all] logs q1 and q2 as missing
    from the marking scheme and raises the scheme-coverage error, since no
    explicit section lists them. *)
Theorem evaluate_default_section_alone :
  ∀ (DEFAULT_SECTION_KEY BONUS_SECTION_PREFIX : string)
    (py_float py_float_of_Fraction : string → result float),
    EvaluationConfig_init DEFAULT_SECTION_KEY BONUS_SECTION_PREFIX
      py_float py_float_of_Fraction (default_only_json DEFAULT_SECTION_KEY)
      "" []
    = (Returned (default_only_config DEFAULT_SECTION_KEY), [])
    ∧ evaluate_concatenated_response DEFAULT_SECTION_KEY response_A_C
        (new_world (default_only_config DEFAULT_SECTION_KEY))
      = (Raised (SchemeCoverageError MissingFromMarkingScheme),
         add_log (Critical_missing_marking_scheme ["q1"; "q2"])
           (new_world (default_only_config DEFAULT_SECTION_KEY))).
Proof.
  intros DEFAULT BONUS pf pff. split.
  - unfold EvaluationConfig_init, default_only_json.
    cbn [json_should_explain_scoring json_source json_marking_scheme].
    rewrite bind_run, bind_run. unfold lift_result at 1.
    rewrite sample_questions_parsed.
    unfold mret at 1, M_ret at 1. cbv beta iota.
    rewrite bind_run. cbn [for_fold]. rewrite bind_run, bind_run.
    unfold SectionMarkingScheme_init. rewrite decide_True by done.
    rewrite bind_run. unfold quarter_penalty_json.
    by rewrite parse_scheme_marking_numbers.
  - rewrite evaluate_run, validate_all_run. unfold validate_all_outcome.
    cbn [new_world default_only_config new_config evaluation_config
         questions_in_order answers_in_order marking_scheme length].
    rewrite decide_False by (intros H; by apply H).
    rewrite collect_section_questions_default_only.
    2:{ intros [|i] key s Hi; simpl in Hi; [|done]. by injection Hi as <- _. }
    rewrite decide_True by (by vm_compute).
    rewrite decide_True by set_solver.
    by rewrite sample_answer_key_sorted.
Qed.

(** ** The response check of validate_all *)

(** C1, as the code has it: the last check of [validate_all] raises exactly
    when the response ids are a subset of the answer-key ids. A response with
    exactly the answer-key ids is rejected, with an empty list of missing
    ids in the log; a response that lacks an answer-key id but holds an
    unknown id passes, and the pass then fails with a [KeyError] at the
    missing question. *)
Theorem validate_all_rejects_exact_response :
  validate_all "DEFAULT" response_A_C (new_world (one_section_config false))
  = (Raised ResponseCoverageError,
     add_log (Critical_missing_response [])
       (new_world (one_section_config false)))
  ∧ validate_all "DEFAULT" response_without_q1
      (new_world (one_section_config false))
    = (Returned (), new_world (one_section_config false))
  ∧ evaluate_concatenated_response "DEFAULT" response_without_q1
      (new_world (one_section_config false))
    = (Raised (PyKeyError "q1"), new_world (one_section_config false))
  ∧ ∀ (DEFAULT_SECTION_KEY : string) (omr_response : gmap string string)
      (w : world),
      let answer_key : gset string :=
        list_to_set (questions_in_order (evaluation_config w)) in
      length (questions_in_order (evaluation_config w))
      = length (answers_in_order (evaluation_config w)) →
      collect_section_questions DEFAULT_SECTION_KEY ∅
        (marking_scheme (evaluation_config w)) = Returned answer_key →
      (validate_all DEFAULT_SECTION_KEY omr_response w).1
      = if decide (dom omr_response ⊆ answer_key)
        then Raised ResponseCoverageError else Returned ().
Proof.
  split; [by vm_compute|]. split; [by vm_compute|]. split; [by vm_compute|].
  intros DEFAULT resp w answer_key Hlen Hcol.
  rewrite validate_all_run. unfold validate_all_outcome.
  rewrite decide_False by (intros H; by apply H).
  rewrite Hcol. fold answer_key.
  rewrite decide_False by (intros H; by apply H).
  by case_decide.
Qed.

(** ** Marking rules *)

(** On a section whose incorrect marking is a [list], [match_answer] walks
    the schedule, stays on its last entry, and starts over after a correct
    answer. *)
Lemma match_answer_on_list_schedule :
  (match_answers [("C", "B"); ("C", "B"); ("C", "B"); ("C", "B")]
     list_schedule_section).1
  = Returned [(MarkNumber (PyInt 0), incorrect);
              (MarkNumber (PyInt (-1)), incorrect);
              (MarkNumber (PyInt (-2)), incorrect);
              (MarkNumber (PyInt (-2)), incorrect)]
  ∧ (match_answers [("C", "B"); ("C", "B"); ("B", "B"); ("C", "B")]
       list_schedule_section).1
    = Returned [(MarkNumber (PyInt 0), incorrect);
                (MarkNumber (PyInt (-1)), incorrect);
                (MarkNumber (PyInt 1), correct);
                (MarkNumber (PyInt 0), incorrect)].
Proof. split; by vm_compute. Qed.

(** With the answer-key ids listed by an explicit section and one more id in
    the response, the marking [{correct: 1, incorrect: -0.25, unmarked: 0}]
    scores the response [{q1: A, q2: C}] at 0.75. *)
Lemma evaluate_explicit_section_score :
  (evaluate_concatenated_response "DEFAULT" response_with_extra
     (new_world (one_section_config false))).1
  = Returned 0.75%float.
Proof. by vm_compute. Qed.

(** C3, as the code has it: [parse_scheme_marking] stores the schedule
    [[0, -1, -2]] as the iterator returned by [map], not as a list, so the
    list case of [match_answer] is never taken for a parsed section: each of
    three consecutive incorrect answers gets the iterator itself as its
    delta, and adding that delta to the score raises [TypeError]. *)
Theorem parsed_schedule_is_not_a_list :
  ∀ (BONUS_SECTION_PREFIX : string)
    (py_float py_float_of_Fraction : string → result float),
    let pending :=
      [JNumber (PyInt 0); JNumber (PyInt (-1)); JNumber (PyInt (-2))] in
    SectionMarkingScheme_init "DEFAULT" BONUS_SECTION_PREFIX py_float
      py_float_of_Fraction "SECTION_1" (SchemeExplicit ["q1..4"] schedule_json)
      "" []
    = (Returned parsed_schedule_section, [])
    ∧ (match_answers [("C", "B"); ("C", "B"); ("C", "B")]
         parsed_schedule_section).1
      = Returned [(MarkMapObject pending, incorrect);
                  (MarkMapObject pending, incorrect);
                  (MarkMapObject pending, incorrect)]
    ∧ ∀ score, float_add_value score (MarkMapObject pending) = Raised PyTypeError.
Proof.
  intros BONUS pf pff pending. split; [|split; [by vm_compute|done]].
  unfold SectionMarkingScheme_init.
  rewrite decide_False by discriminate.
  rewrite bind_run. unfold lift_result at 1.
  replace (parse_questions "SECTION_1" ["q1..4"])
    with (Returned ["q1"; "q2"; "q3"; "q4"] : result (list string))
    by (by vm_compute).
  cbv beta iota. rewrite bind_run. reflexivity.
Qed.

(** C9, as the code has it: the warning about positive marks for an
    incorrect answer is only reached for a marking written as a string. The
    same positive value written as a JSON number, in a section without the
    bonus prefix, is accepted without a warning. *)
Theorem positive_incorrect_number_not_warned :
  ∀ (BONUS_SECTION_PREFIX : string)
    (py_float py_float_of_Fraction : string → result float),
    parse_scheme_marking BONUS_SECTION_PREFIX py_float py_float_of_Fraction
      "SECTION_1"
      (PerVerdict (JNumber (PyInt 1)) (JNumber (PyInt 1)) (JNumber (PyInt 0)))
      []
    = (Returned (PerVerdict (MarkNumber (PyInt 1)) (MarkNumber (PyInt 1))
                            (MarkNumber (PyInt 0))), [])
    ∧ parse_scheme_marking BONUS_SECTION_PREFIX py_float py_float_of_Fraction
        "SECTION_1"
        (PerVerdict (JNumber (PyInt 1)) (JNumber (PyFloat 0.5))
                    (JNumber (PyInt 0)))
        []
      = (Returned (PerVerdict (MarkNumber (PyInt 1)) (MarkNumber (PyFloat 0.5))
                              (MarkNumber (PyInt 0))), [])
    ∧ (py_float "1" = Returned 1%float →
       startswith "SECTION_1" BONUS_SECTION_PREFIX = false →
       parse_scheme_marking BONUS_SECTION_PREFIX py_float py_float_of_Fraction
         "SECTION_1"
         (PerVerdict (JNumber (PyInt 1)) (JString "1") (JNumber (PyInt 0)))
         []
       = (Returned (PerVerdict (MarkNumber (PyInt 1))
                               (MarkNumber (PyFloat 1))
                               (MarkNumber (PyInt 0))),
          [Warning_positive_incorrect 1 "SECTION_1"])).
Proof.
  intros BONUS pf pff. split; [done|]. split; [done|].
  intros Hpf Hbonus.
  unfold parse_scheme_marking, MARKING_VERDICT_TYPES. cbn [for_fold pv_get].
  unfold parse_float_or_fraction. cbn [string_exists Ascii.eqb orb].
  rewrite !bind_run. cbn [mret M_ret pv_set on_correct on_incorrect on_unmarked].
  rewrite !bind_run. unfold lift_result. rewrite Hpf, Hbonus. reflexivity.
Qed.

(** ** One question of the scoring pass *)

Lemma py_list_index_nat {A} (l : list A) (i : nat) :
  py_list_index l (Z.of_nat i)
  = match l !! i with
    | Some x => Returned x
    | None => Raised PyIndexError
    end.
Proof.
  unfold py_list_index.
  destruct (Z.of_nat i <? 0) eqn:Eneg; [apply Z.ltb_lt in Eneg; lia|].
  rewrite Eneg. cbn [orb]. rewrite Nat2Z.id.
  destruct (Z.of_nat (length l) <=? Z.of_nat i) eqn:Ele; [|done].
  apply Z.leb_le in Ele. rewrite lookup_ge_None_2; [done|lia].
Qed.

Lemma update_section_same ref key s w :
  marking_scheme (evaluation_config w) !! ref = Some (key, s) →
  update_section ref key s w = w.
Proof.
  intros Href. unfold update_section, with_config, set_marking_scheme.
  rewrite list_insert_id by done. by destruct w as [[] ? ?].
Qed.

Lemma at_section_run {A} ref (m : M SectionMarkingScheme A) w :
  at_section ref m w
  = match marking_scheme (evaluation_config w) !! ref with
    | Some (key, s) => ((m s).1, update_section ref key (m s).2 w)
    | None => (Raised PyIndexError, w)
    end.
Proof.
  unfold at_section. destruct (_ !! ref) as [[key s]|]; [|done].
  by destruct (m s).
Qed.

Lemma conditionally_add_explanation_run correct_answer delta marked_answer
    ref question_verdict question score w :
  conditionally_add_explanation correct_answer delta marked_answer ref
    question_verdict question score w
  = if should_explain_scoring (evaluation_config w) then
      match float_add_value score delta with
      | inl e => (Raised e, w)
      | inr next_score =>
          match marking_scheme (evaluation_config w) !! ref with
          | Some (key, s) =>
              (Returned (),
               append_row
                 (explanation_row_of question marked_answer correct_answer
                    question_verdict delta next_score s) w)
          | None => (Raised PyIndexError, w)
          end
      end
    else (Returned (), w).
Proof.
  unfold conditionally_add_explanation.
  rewrite bind_run. unfold get_state at 1. cbv beta iota.
  destruct (should_explain_scoring (evaluation_config w)); [|done].
  rewrite bind_run. unfold lift_result at 1.
  destruct (float_add_value score delta) as [e|next_score]; [done|].
  cbv beta iota. rewrite bind_run, at_section_run.
  destruct (marking_scheme (evaluation_config w) !! ref) as [[key s]|] eqn:Href;
    [|done].
  cbn [fst snd mbind M_bind get_state mret M_ret].
  by rewrite update_section_same.
Qed.

Lemma score_question_run resp answers table dflt score q_index question w :
  score_question resp answers table dflt score q_index question w
  = score_question_outcome resp answers table dflt score q_index question w.
Proof.
  unfold score_question, score_question_outcome.
  rewrite bind_run. unfold lift_result at 1. rewrite py_list_index_nat.
  destruct (answers !! q_index) as [correct_answer|]; [|done].
  cbv beta iota. rewrite bind_run.
  destruct (resp !! question) as [marked_answer|]; [|done].
  unfold mret at 1, M_ret at 1. cbv beta iota. rewrite bind_run.
  destruct dflt as [fallback|]; [|done].
  unfold mret at 1, M_ret at 1. cbv beta iota zeta.
  rewrite bind_run, at_section_run.
  destruct (marking_scheme (evaluation_config w) !! _) as [[key s]|] eqn:Href;
    [|done].
  rewrite match_answer_run. cbv zeta.
  destruct (peek_delta _ _) as [e|delta]; cbn [fst snd].
  { by rewrite update_section_same. }
  rewrite bind_run, conditionally_add_explanation_run.
  assert (Hlen : (default fallback (table !! question)
                  < length (marking_scheme (evaluation_config w)))%nat)
    by (by eapply lookup_lt_Some).
  cbn [update_section with_config evaluation_config set_marking_scheme
       should_explain_scoring marking_scheme].
  destruct (should_explain_scoring (evaluation_config w)).
  - destruct (float_add_value score delta) as [e|next_score]; [done|].
    rewrite list_lookup_insert_eq by done. reflexivity.
  - unfold lift_result. by destruct (float_add_value score delta).
Qed.

(** ** What a pass leaves unchanged *)

Lemma pass_related_same_config w w' :
  evaluation_config w' = evaluation_config w → pass_related w w'.
Proof.
  intros Hcfg. split; [by rewrite Hcfg|].
  exists []. by rewrite Hcfg, app_nil_r.
Qed.

Lemma pass_related_refl w : pass_related w w.
Proof. by apply pass_related_same_config. Qed.

Lemma pass_related_trans w1 w2 w3 :
  pass_related w1 w2 → pass_related w2 w3 → pass_related w1 w3.
Proof.
  intros [Hf1 (rows1 & Ht1 & Hoff1)] [Hf2 (rows2 & Ht2 & Hoff2)].
  split; [congruence|]. exists (rows1 ++ rows2). split.
  - by rewrite Ht2, Ht1, app_assoc.
  - intros Hoff. rewrite Hoff1 by done.
    rewrite Hoff2; [done|]. unfold config_frame in Hf1. congruence.
Qed.

Lemma pass_related_update_section ref key s f w :
  marking_scheme (evaluation_config w) !! ref = Some (key, s) →
  pass_related w (update_section ref key (set_streaks f s) w).
Proof.
  intros Href. split.
  - unfold config_frame. cbn. f_equal.
    rewrite list_fmap_insert. apply list_insert_id.
    by rewrite list_lookup_fmap, Href.
  - exists []. by rewrite app_nil_r.
Qed.

Lemma pass_related_append_row row w :
  should_explain_scoring (evaluation_config w) = true →
  pass_related w (append_row row w).
Proof.
  intros Hon. split; [done|]. exists [row]. split; [done|].
  cbn. congruence.
Qed.

Lemma pass_related_add_log r w : pass_related w (add_log r w).
Proof. by apply pass_related_same_config. Qed.

Lemma score_question_related resp answers table dflt score q_index question w :
  pass_related w
    (score_question resp answers table dflt score q_index question w).2.
Proof.
  rewrite score_question_run. unfold score_question_outcome.
  repeat case_match; cbn [snd]; subst;
    try apply pass_related_refl;
    try (by apply pass_related_update_section).
  eapply pass_related_trans; [by apply pass_related_update_section|].
  by apply pass_related_append_row.
Qed.

Lemma scoring_loop_related resp answers table dflt indexed_questions :
  ∀ score w,
    pass_related w
      (scoring_loop resp answers table dflt score indexed_questions w).2.
Proof.
  induction indexed_questions as [|[q_index question] rest IH]; intros score w.
  { apply pass_related_refl. }
  rewrite scoring_loop_cons.
  pose proof (score_question_related resp answers table dflt score q_index
                question w) as Hstep.
  destruct (score_question _ _ _ _ _ _ _ _) as [[e|score'] w']; [done|].
  eapply pass_related_trans; [exact Hstep|apply IH].
Qed.

Lemma conditionally_print_explanation_config w :
  evaluation_config (conditionally_print_explanation w).2
  = evaluation_config w.
Proof.
  unfold conditionally_print_explanation.
  rewrite bind_run. unfold get_state at 1. cbv beta iota.
  by destruct (should_explain_scoring _).
Qed.

Lemma scoring_pass_related DEFAULT_SECTION_KEY resp w :
  pass_related w (scoring_pass DEFAULT_SECTION_KEY resp w).2.
Proof.
  unfold scoring_pass. rewrite bind_run. unfold get_state at 1.
  cbv beta iota. rewrite bind_run. unfold lift_result at 1.
  destruct (route_questions _ _) as [e|[table dflt]];
    [apply pass_related_refl|].
  cbv beta iota. rewrite bind_run.
  pose proof (scoring_loop_related resp
                (answers_in_order (evaluation_config w)) table dflt
                (enumerate (questions_in_order (evaluation_config w)))
                0%float w) as Hloop.
  destruct (scoring_loop _ _ _ _ _ _ _) as [[e|score] w']; [done|].
  rewrite bind_run.
  pose proof (conditionally_print_explanation_config w') as Hprint.
  destruct (conditionally_print_explanation w') as [[e|[]] w''];
    cbn [snd] in *;
    (eapply pass_related_trans; [exact Hloop|]);
    by apply pass_related_same_config.
Qed.

Lemma evaluate_related DEFAULT_SECTION_KEY resp w :
  pass_related w
    (evaluate_concatenated_response DEFAULT_SECTION_KEY resp w).2.
Proof.
  rewrite evaluate_run.
  pose proof (validate_all_config DEFAULT_SECTION_KEY resp w) as Hval.
  destruct (validate_all _ _ _) as [[e|[]] w']; cbn [snd] in *.
  - by apply pass_related_same_config.
  - eapply pass_related_trans; [by apply pass_related_same_config|].
    apply scoring_pass_related.
Qed.

(** ** The counters a pass leaves *)

Lemma scored_verdicts_set_streaks resp answers table dflt i f s l :
  scored_verdicts resp answers table dflt i (set_streaks f s) l
  = scored_verdicts resp answers table dflt i s l.
Proof.
  induction l as [|[q_index question] rest IH]; [done|].
  cbn [scored_verdicts]. rewrite IH. done.
Qed.

Lemma set_streaks_id s : set_streaks (commit_all []) s = s.
Proof. by destruct s. Qed.

Lemma score_question_returned resp answers table dflt score q_index question
    w r w' :
  score_question resp answers table dflt score q_index question w
  = (Returned r, w') →
  ∃ correct_answer marked_answer fallback key s,
    answers !! q_index = Some correct_answer
    ∧ resp !! question = Some marked_answer
    ∧ dflt = Some fallback
    ∧ marking_scheme (evaluation_config w)
        !! default fallback (table !! question) = Some (key, s)
    ∧ marking_scheme (evaluation_config w')
      = <[default fallback (table !! question) :=
            (key, set_streaks
                    (commit_streak (verdict_of s marked_answer correct_answer))
                    s)]>
          (marking_scheme (evaluation_config w)).
Proof.
  rewrite score_question_run. unfold score_question_outcome.
  destruct (answers !! q_index) as [correct_answer|]; [|done].
  destruct (resp !! question) as [marked_answer|]; [|done].
  destruct dflt as [fallback|]; [|done]. cbv zeta.
  destruct (marking_scheme (evaluation_config w) !! _) as [[key s]|] eqn:Href;
    [|done].
  destruct (peek_delta _ _) as [e|delta]; [done|].
  destruct (float_add_value score delta) as [e|next_score]; [done|].
  intros [= <- <-].
  exists correct_answer, marked_answer, fallback, key, s.
  repeat split; try done.
  by destruct (should_explain_scoring (evaluation_config w)).
Qed.

Lemma scoring_loop_streaks resp answers table dflt indexed_questions :
  ∀ score w r w',
    scoring_loop resp answers table dflt score indexed_questions w
    = (Returned r, w') →
    ∀ i key s,
      marking_scheme (evaluation_config w) !! i = Some (key, s) →
      marking_scheme (evaluation_config w') !! i
      = Some (key,
              set_streaks
                (commit_all
                   (scored_verdicts resp answers table dflt i s
                      indexed_questions)) s).
Proof.
  induction indexed_questions as [|[q_index question] rest IH];
    intros score w r w' Hrun i key s Hi.
  { injection Hrun as <- <-. by rewrite set_streaks_id. }
  rewrite scoring_loop_cons in Hrun.
  destruct (score_question _ _ _ _ _ _ _ _) as [[e|score'] w1] eqn:Hstep;
    [done|].
  apply score_question_returned in Hstep
    as (ca & ma & fallback & key0 & s0 & Hca & Hma & -> & Href & Hms).
  cbn [scored_verdicts]. rewrite Hca, Hma.
  case_decide as Hsame.
  - rewrite Hsame in Href, Hms. rewrite Hi in Href. injection Href as <- <-.
    erewrite (IH _ _ _ _ Hrun i key).
    2:{ rewrite Hms. apply list_lookup_insert_eq. by eapply lookup_lt_Some. }
    by rewrite scored_verdicts_set_streaks.
  - apply (IH _ _ _ _ Hrun i key s).
    rewrite Hms. by rewrite list_lookup_insert_ne.
Qed.

Lemma evaluate_streaks DEFAULT_SECTION_KEY resp w score w' :
  evaluate_concatenated_response DEFAULT_SECTION_KEY resp w
  = (Returned score, w') →
  ∀ i key s,
    marking_scheme (evaluation_config w) !! i = Some (key, s) →
    marking_scheme (evaluation_config w') !! i
    = Some (key,
            set_streaks
              (commit_all
                 (pass_verdicts DEFAULT_SECTION_KEY resp (evaluation_config w)
                    i s)) s).
Proof.
  rewrite evaluate_run.
  destruct (validate_all _ _ _) as [[e|[]] w0] eqn:Hval; [done|].
  assert (w0 = w) as ->.
  { pose proof (validate_all_returned DEFAULT_SECTION_KEY resp w) as H.
    rewrite Hval in H. destruct (H eq_refl) as [Heq _]. congruence. }
  unfold scoring_pass, pass_verdicts.
  rewrite bind_run. unfold get_state at 1. cbv beta iota.
  rewrite bind_run. unfold lift_result at 1.
  destruct (route_questions _ _) as [e|[table dflt]]; [done|].
  cbv beta iota. rewrite bind_run.
  destruct (scoring_loop _ _ _ _ _ _ _) as [[e|r] w1] eqn:Hloop; [done|].
  rewrite bind_run.
  pose proof (conditionally_print_explanation_config w1) as Hprint.
  destruct (conditionally_print_explanation w1) as [[e|[]] w2]; [done|].
  intros [= <- <-] i key s Hi. cbn [snd] in Hprint. rewrite Hprint.
  by apply (scoring_loop_streaks _ _ _ _ _ _ _ _ _ Hloop).
Qed.

Lemma pass_verdicts_set_streaks DEFAULT_SECTION_KEY resp cfg i f s :
  pass_verdicts DEFAULT_SECTION_KEY resp cfg i (set_streaks f s)
  = pass_verdicts DEFAULT_SECTION_KEY resp cfg i s.
Proof.
  unfold pass_verdicts. destruct (route_questions _ _) as [e|[table dflt]];
    [done|]. apply scored_verdicts_set_streaks.
Qed.

Lemma outcome_and_state {A B} (p : A * B) (x : A) : p.1 = x → p = (x, p.2).
Proof. destruct p. simpl. congruence. Qed.

Lemma set_streaks_commit_all_app vs1 vs2 s :
  set_streaks (commit_all vs2) (set_streaks (commit_all vs1) s)
  = set_streaks (commit_all (vs1 ++ vs2)) s.
Proof.
  unfold set_streaks. cbn. f_equal. unfold commit_all. by rewrite foldl_app.
Qed.

(** C7 fails as stated: with explanations on, a pass also adds rows to the
    explanation table of the configuration. *)
Lemma evaluate_mutates_explanation_table :
  ¬ only_streaks_mutated (new_world (one_section_config true))
      (evaluate_concatenated_response "DEFAULT" response_with_extra
         (new_world (one_section_config true))).2.
Proof. intros [_ Htable]. vm_compute in Htable. discriminate. Qed.

(** C7, as the code has it: a pass never changes the answer key, the keys
    and order of the sections, or a section's questions, marking rules and
    empty value; besides the streak counters it changes only the
    explanation table, to which it adds rows, and none when explanations are
    off. The counters are carried from pass to pass: after a pass that
    returned a score, each section's counters are the commits of the verdicts
    it scored applied to the counters it had before, and after a second such
    pass they are the commits of both passes' verdicts in order. *)
Theorem evaluate_mutates_only_streaks_and_table :
  ∀ (DEFAULT_SECTION_KEY : string) (omr_response : gmap string string)
    (w : world),
    let run := evaluate_concatenated_response DEFAULT_SECTION_KEY in
    let w' := (run omr_response w).2 in
    config_frame (evaluation_config w') = config_frame (evaluation_config w)
    ∧ (∃ rows,
         explanation_table (evaluation_config w')
         = explanation_table (evaluation_config w) ++ rows
         ∧ (should_explain_scoring (evaluation_config w) = false → rows = []))
    ∧ (∀ score i key s,
         (run omr_response w).1 = Returned score →
         marking_scheme (evaluation_config w) !! i = Some (key, s) →
         marking_scheme (evaluation_config w') !! i
         = Some (key,
                 set_streaks
                   (commit_all
                      (pass_verdicts DEFAULT_SECTION_KEY omr_response
                         (evaluation_config w) i s)) s))
    ∧ (∀ second_response score second_score i key s,
         (run omr_response w).1 = Returned score →
         (run second_response w').1 = Returned second_score →
         marking_scheme (evaluation_config w) !! i = Some (key, s) →
         marking_scheme (evaluation_config (run second_response w').2) !! i
         = Some (key,
                 set_streaks
                   (commit_all
                      (pass_verdicts DEFAULT_SECTION_KEY omr_response
                         (evaluation_config w) i s
                       ++ pass_verdicts DEFAULT_SECTION_KEY second_response
                            (evaluation_config w') i s)) s)).
Proof.
  intros DEFAULT resp w run w'.
  destruct (evaluate_related DEFAULT resp w) as [Hframe Htable].
  split; [done|]. split; [done|].
  assert (Hone : ∀ score i key s,
            (run resp w).1 = Returned score →
            marking_scheme (evaluation_config w) !! i = Some (key, s) →
            marking_scheme (evaluation_config w') !! i
            = Some (key,
                    set_streaks
                      (commit_all
                         (pass_verdicts DEFAULT resp (evaluation_config w) i s))
                      s)).
  { intros score i key s Hret Hi.
    apply (evaluate_streaks DEFAULT resp w score w'); [|done].
    by apply outcome_and_state. }
  split; [exact Hone|].
  intros resp2 score score2 i key s Hret Hret2 Hi.
  pose proof (Hone score i key s Hret Hi) as Hmid.
  assert (Hrun2 : run resp2 w' = (Returned score2, (run resp2 w').2)).
  { by apply outcome_and_state. }
  rewrite (evaluate_streaks DEFAULT resp2 w' score2 (run resp2 w').2 Hrun2
             i key _ Hmid).
  by rewrite pass_verdicts_set_streaks, set_streaks_commit_all_app.
Qed.

Lemma evaluate_mutates_only_streaks_and_table_witness :
  (λ ks, streaks ks.2) <$>
    marking_scheme
      (evaluation_config
         (evaluate_concatenated_response "DEFAULT" response_all_correct
            (evaluate_concatenated_response "DEFAULT" response_all_correct
               (new_world (one_section_config false))).2).2) !! 1%nat
  = Some (PerVerdict 4 0 0).
Proof.
  rewrite (proj2 (proj2 (proj2 (evaluate_mutates_only_streaks_and_table
             "DEFAULT" response_all_correct
             (new_world (one_section_config false))))) response_all_correct
             2%float 2%float 1%nat "SECTION_1"
             (new_section "SECTION_1" (Some ["q1"; "q2"]) quarter_penalty));
    by vm_compute.
Defined.

(** ** References built by the routing loop *)

Lemma route_table_insert (ref : nat) (qs : list string) :
  ∀ (table : gmap string nat) q i,
    foldl (λ t q, <[q := ref]> t) table qs !! q = Some i →
    i = ref ∨ table !! q = Some i.
Proof.
  induction qs as [|q0 qs IH]; intros table q i Hq; [by right|].
  cbn [foldl] in Hq. destruct (IH _ _ _ Hq) as [->|Hq']; [by left|].
  destruct (decide (q0 = q)) as [->|Hne].
  - rewrite lookup_insert_eq in Hq'. left. congruence.
  - rewrite lookup_insert_ne in Hq' by done. by right.
Qed.

Lemma enumerate_from_refs {A} (l : list A) :
  ∀ n i x, (i, x) ∈ enumerate_from n l → l !! (i - n)%nat = Some x ∧ (n <= i)%nat.
Proof.
  induction l as [|y l IH]; intros n i x Hin; [by apply elem_of_nil in Hin|].
  cbn [enumerate_from] in Hin. apply elem_of_cons in Hin as [[= -> ->]|Hin].
  - by rewrite Nat.sub_diag.
  - destruct (IH _ _ _ Hin) as [Hl Hle]. split; [|lia].
    replace (i - n)%nat with (S (i - S n)) by lia. done.
Qed.

(** Every position the routing loop hands out is that of a section of the
    marking scheme, so the last case of [at_section] is never reached from
    the scoring loop. *)
Lemma routing_refs_valid DEFAULT_SECTION_KEY ms table dflt :
  route_questions DEFAULT_SECTION_KEY ms = Returned (table, dflt) →
  (∀ q i, table !! q = Some i → is_Some (ms !! i))
  ∧ (∀ d, dflt = Some d → is_Some (ms !! d)).
Proof.
  unfold route_questions.
  assert (Hgen : ∀ (l : list (nat * (string * SectionMarkingScheme)))
                   (t0 : gmap string nat) d0,
            (∀ i x, (i, x) ∈ l → is_Some (ms !! i)) →
            (∀ q i, t0 !! q = Some i → is_Some (ms !! i)) →
            (∀ d, d0 = Some d → is_Some (ms !! d)) →
            for_result
              (λ '(QUESTION_WISE_SCHEMES, default_marking_scheme)
                 '(ref, (section_key, section_marking_scheme)),
                 if decide (section_key = DEFAULT_SECTION_KEY) then
                   Returned (QUESTION_WISE_SCHEMES, Some ref)
                 else
                   match questions section_marking_scheme with
                   | None => Raised PyTypeError
                   | Some section_questions =>
                       Returned
                         (foldl (λ table q, <[q := ref]> table)
                            QUESTION_WISE_SCHEMES section_questions,
                          default_marking_scheme)
                   end)
              (t0, d0) l
            = Returned (table, dflt) →
            (∀ q i, table !! q = Some i → is_Some (ms !! i))
            ∧ (∀ d, dflt = Some d → is_Some (ms !! d))).
  { induction l as [|[ref [key s]] l IH]; intros t0 d0 Hl Ht Hd Hrun.
    - cbn in Hrun. by injection Hrun as <- <-.
    - cbn [for_result] in Hrun.
      assert (Href : is_Some (ms !! ref)) by (eapply Hl; left).
      assert (Hl' : ∀ i x, (i, x) ∈ l → is_Some (ms !! i))
        by (intros i x Hix; eapply Hl; by right).
      case_decide.
      + cbn [mbind result_bind] in Hrun.
        apply (IH _ _ Hl' Ht) in Hrun; [done|]. by intros d [= <-].
      + destruct (questions s) as [qs|]; [|done].
        cbn [mbind result_bind] in Hrun.
        apply (IH _ _ Hl') in Hrun; [done| |done].
        intros q i [->|Hq]%route_table_insert; eauto. }
  apply Hgen; [|by intros q i ?%lookup_empty_Some|done].
  intros i x [Hi _]%enumerate_from_refs. rewrite Nat.sub_0_r in Hi. eauto.
Qed.

(** * Further properties of the code *)

(** ** Streaks and deltas over a run of answers *)

Lemma match_answers_cons marked_answer correct_answer answers self :
  match_answers ((marked_answer, correct_answer) :: answers) self
  = match match_answer marked_answer correct_answer self with
    | (inl e, self') => (Raised e, self')
    | (inr r, self') =>
        match match_answers answers self' with
        | (inl e, self'') => (Raised e, self'')
        | (inr rs, self'') => (Returned (r :: rs), self'')
        end
    end.
Proof.
  cbn [match_answers]. rewrite bind_run.
  destruct (match_answer _ _ _) as [[e|r] self']; [done|].
  rewrite bind_run. by destruct (match_answers answers self') as [[e|rs] ?].
Qed.

Lemma verdict_of_set_streaks f self marked_answer correct_answer :
  verdict_of (set_streaks f self) marked_answer correct_answer
  = verdict_of self marked_answer correct_answer.
Proof. reflexivity. Qed.

Lemma peek_delta_no_list rule n :
  (∀ items, rule ≠ MarkList items) → peek_delta rule n = Returned rule.
Proof. intros Hrule. destruct rule; try done. by destruct (Hrule items). Qed.

(** On a section none of whose markings is a list, and every section that
    the constructor builds is one, any run of answers is scored without an
    exception: each answer gets the marking of its verdict as its delta,
    whatever the counters are, and the counters end as the commits of the
    verdicts in order. *)
Theorem match_answers_constant_markings :
  ∀ (answers : list (string * string)) (self : SectionMarkingScheme),
    no_list_marking (marking self) →
    match_answers answers self
    = (Returned
         ((λ a, (pv_get (marking self) (verdict_of self a.1 a.2),
                 verdict_of self a.1 a.2)) <$> answers),
       set_streaks
         (commit_all ((λ a, verdict_of self a.1 a.2) <$> answers)) self).
Proof.
  induction answers as [|[m c] answers IH]; intros self Hno.
  { cbn. by rewrite set_streaks_id. }
  rewrite match_answers_cons, match_answer_run. cbv zeta.
  rewrite peek_delta_no_list by apply Hno.
  rewrite IH by done. reflexivity.
Qed.

Lemma match_answers_constant_markings_witness :
  match_answers [("A", "A"); ("", "B"); ("C", "B"); ("D", "B")]
    (new_section "SECTION_1" (Some ["q1"; "q2"; "q3"; "q4"]) quarter_penalty)
  = (Returned [(MarkNumber (PyInt 1), correct);
               (MarkNumber (PyInt 0), unmarked);
               (MarkNumber (PyFloat (-0.25)), incorrect);
               (MarkNumber (PyFloat (-0.25)), incorrect)],
     set_streaks (λ _, PerVerdict 0 2 0)
       (new_section "SECTION_1" (Some ["q1"; "q2"; "q3"; "q4"])
          quarter_penalty)).
Proof.
  rewrite match_answers_constant_markings; [reflexivity|].
  by intros [] items.
Defined.

Lemma py_list_index_schedule (schedule : list pynum) (n : Z) :
  schedule ≠ [] → 0 ≤ n →
  py_list_index schedule (Z.min n (Z.of_nat (length schedule) - 1))
  = Returned (schedule_entry schedule (Z.to_nat n)).
Proof.
  intros Hne Hn. unfold schedule_entry.
  assert (Hlen : (1 <= length schedule)%nat).
  { destruct schedule; [done|simpl; lia]. }
  replace (Z.min n (Z.of_nat (length schedule) - 1))
    with (Z.of_nat (Nat.min (Z.to_nat n) (length schedule - 1))) by lia.
  rewrite py_list_index_nat.
  destruct (schedule !! _) as [x|] eqn:Hx.
  - by rewrite (nth_lookup_Some _ _ _ _ Hx).
  - apply lookup_ge_None in Hx. lia.
Qed.

Lemma commit_all_replicate (k : nat) (v : verdict) (counters : per_verdict Z) :
  pv_get (commit_all (replicate k v) counters) v
  = pv_get counters v + Z.of_nat k.
Proof.
  revert counters. induction k as [|k IH]; intros counters.
  { cbn. lia. }
  change (commit_all (replicate (S k) v) counters)
    with (commit_all (replicate k v) (commit_streak v counters)).
  rewrite IH. unfold commit_streak.
  destruct v; cbn [pv_get on_correct on_incorrect on_unmarked];
    repeat case_decide; try done; lia.
Qed.

(** A run of answers with one and the same verdict, on a section that holds
    a non-empty list as the marking of that verdict and a counter [n] that is
    not negative: the i-th answer of the run gets the entry
    [min(n + i, len - 1)] of the list, so the deltas walk the schedule from
    where the counter stands and stay on its last entry, and the counter
    ends at [n] plus the length of the run. *)
Theorem match_answers_schedule_run :
  ∀ (answers : list (string * string)) (self : SectionMarkingScheme)
    (v : verdict) (schedule : list pynum),
    pv_get (marking self) v = MarkList schedule →
    schedule ≠ [] →
    0 ≤ pv_get (streaks self) v →
    (∀ a, a ∈ answers → verdict_of self a.1 a.2 = v) →
    match_answers answers self
    = (Returned
         ((λ i, (MarkNumber
                   (schedule_entry schedule
                      (Z.to_nat (pv_get (streaks self) v) + i)), v))
          <$> seq 0 (length answers)),
       set_streaks (commit_all (replicate (length answers) v)) self)
    ∧ pv_get (commit_all (replicate (length answers) v) (streaks self)) v
      = pv_get (streaks self) v + Z.of_nat (length answers).
Proof.
  intros answers self v schedule Hm Hne Hn Hv.
  split; [|apply commit_all_replicate].
  revert self Hm Hn Hv.
  induction answers as [|[m c] answers IH]; intros self Hm Hn Hv.
  { cbn. by rewrite set_streaks_id. }
  assert (Hmc : verdict_of self m c = v) by (apply (Hv (m, c)); by left).
  rewrite match_answers_cons, match_answer_run. cbv zeta.
  rewrite Hmc, Hm. cbn [peek_delta].
  rewrite py_list_index_schedule by done. cbn [fmap result_fmap].
  assert (Hc : pv_get (streaks (set_streaks (commit_streak v) self)) v
               = pv_get (streaks self) v + 1).
  { unfold commit_streak. by destruct v. }
  rewrite IH; [| done | lia |].
  2:{ intros a Ha. rewrite verdict_of_set_streaks. apply Hv. by right. }
  rewrite Hc. cbn [length seq replicate].
  f_equal.
  cbn [fmap list_fmap]. rewrite Nat.add_0_r. do 2 f_equal.
  rewrite <- fmap_S_seq, <- list_fmap_compose.
  apply list_fmap_ext. intros _ i _. cbn. do 3 f_equal. lia.
Qed.

Lemma match_answers_schedule_run_witness :
  match_answers [("C", "B"); ("D", "B"); ("C", "B"); ("C", "B")]
    list_schedule_section
  = (Returned [(MarkNumber (PyInt 0), incorrect);
               (MarkNumber (PyInt (-1)), incorrect);
               (MarkNumber (PyInt (-2)), incorrect);
               (MarkNumber (PyInt (-2)), incorrect)],
     set_streaks (λ _, PerVerdict 0 4 0) list_schedule_section).
Proof.
  refine (eq_trans
            (proj1 (match_answers_schedule_run
                      [("C", "B"); ("D", "B"); ("C", "B"); ("C", "B")]
                      list_schedule_section incorrect
                      [PyInt 0; PyInt (-1); PyInt (-2)] eq_refl _ _ _)) _).
  - done.
  - done.
  - intros a Ha. repeat (apply elem_of_cons in Ha as [->|Ha]; [done|]).
    by apply elem_of_nil in Ha.
  - reflexivity.
Defined.

(** An empty list as the marking of a verdict makes every answer with that
    verdict raise [IndexError], whatever the counter is, and the counters
    are left as they were. *)
Theorem match_answer_empty_schedule :
  ∀ (self : SectionMarkingScheme) (marked_answer correct_answer : string),
    pv_get (marking self) (verdict_of self marked_answer correct_answer)
    = MarkList [] →
    match_answer marked_answer correct_answer self = (Raised PyIndexError, self).
Proof.
  intros self m c Hm. rewrite match_answer_run. cbv zeta. rewrite Hm.
  cbn [peek_delta length]. unfold py_list_index. cbn [length].
  set (i := Z.min _ _).
  assert (Hi : i < 0) by (subst i; lia).
  apply Z.ltb_lt in Hi as Hi'. rewrite Hi'.
  assert (Hneg : (Z.of_nat 0 + i <? 0) = true) by (apply Z.ltb_lt; lia).
  by rewrite Hneg.
Qed.

Lemma match_answer_empty_schedule_witness :
  match_answer "C" "B"
    (new_section "SECTION_1" (Some ["q1"])
       (PerVerdict (MarkNumber (PyInt 1)) (MarkList []) (MarkNumber (PyInt 0))))
  = (Raised PyIndexError,
     new_section "SECTION_1" (Some ["q1"])
       (PerVerdict (MarkNumber (PyInt 1)) (MarkList []) (MarkNumber (PyInt 0)))).
Proof. by apply match_answer_empty_schedule. Defined.

Lemma commit_streak_exclusive v counters :
  streaks_exclusive counters → streaks_exclusive (commit_streak v counters).
Proof.
  intros [(Hc & Hi & Hu) _]. unfold commit_streak, streaks_exclusive.
  destruct v; cbn [pv_get on_correct on_incorrect on_unmarked];
    repeat case_decide; try done; (split; [lia|]); auto.
Qed.

Lemma match_answer_exclusive marked_answer correct_answer self :
  streaks_exclusive (streaks self) →
  streaks_exclusive (streaks (match_answer marked_answer correct_answer self).2).
Proof.
  intros Hex. rewrite match_answer_run. cbv zeta.
  destruct (peek_delta _ _); cbn [snd]; [done|].
  by apply commit_streak_exclusive.
Qed.

(** The counters of a section stay mutually exclusive: if none is negative
    and at most one is non-zero before a run of answers, the same holds
    after it, however the run ends; this is so for a fresh section, whose
    counters are all zero. *)
Theorem match_answers_keep_streaks_exclusive :
  ∀ (answers : list (string * string)) (self : SectionMarkingScheme),
    streaks_exclusive (streaks self) →
    streaks_exclusive (streaks (match_answers answers self).2).
Proof.
  induction answers as [|[m c] answers IH]; intros self Hex; [done|].
  rewrite match_answers_cons.
  pose proof (match_answer_exclusive m c self Hex) as Hstep.
  destruct (match_answer m c self) as [[e|r] self']; [done|].
  specialize (IH self' Hstep).
  by destruct (match_answers answers self') as [[e|rs] self''].
Qed.

Lemma match_answers_keep_streaks_exclusive_witness :
  streaks_exclusive
    (streaks
       (match_answers [("C", "B"); ("B", "B"); ("", "B")]
          list_schedule_section).2).
Proof.
  apply match_answers_keep_streaks_exclusive.
  split; [done|]. by left.
Defined.

(** ** More on the RangeParser *)

Lemma pretty_N_char_digit x : (x < 10)%N → is_digit (pretty_N_char x) = true.
Proof.
  intros Hx. unfold pretty_N_char.
  destruct x as [|p]; [done|].
  do 4 (destruct p as [p|p|]; try done); lia.
Qed.

Lemma pretty_N_go_digits x : ∀ s,
  string_forall is_digit s = true →
  string_forall is_digit (pretty_N_go x s) = true.
Proof.
  induction (N.lt_wf_0 x) as [x _ IH]; intros s Hs.
  destruct (decide (x = 0%N)) as [->|Hx]; [by rewrite pretty_N_go_0|].
  rewrite pretty_N_go_step by lia.
  apply IH; [apply N.div_lt; lia|]. cbn [string_forall].
  rewrite pretty_N_char_digit; [done|]. apply N.mod_lt. lia.
Qed.

Lemma pretty_N_digits (x : N) : string_forall is_digit (pretty x) = true.
Proof.
  unfold pretty, pretty_N. case_decide; [done|]. by apply pretty_N_go_digits.
Qed.

Lemma string_exists_app p a b :
  string_exists p (a +:+ b) = string_exists p a || string_exists p b.
Proof.
  induction a as [|c a IH]; [done|]. simpl. by rewrite IH, orb_assoc.
Qed.

Lemma string_forall_no_dot cls s :
  (∀ c, cls c = true → is_dot c = false) →
  string_forall cls s = true → string_exists is_dot s = false.
Proof.
  intros Hcls. induction s as [|c s IH]; [done|]. cbn.
  intros [Hc Hs]%andb_prop. by rewrite (Hcls c Hc), IH.
Qed.

Lemma prefix_char_not_dot c : is_prefix_char c = true → is_dot c = false.
Proof. unfold is_prefix_char. by destruct (is_dot c). Qed.

Lemma question_id_no_dot prefix (n : N) :
  string_forall is_prefix_char prefix = true →
  string_exists is_dot (prefix +:+ pretty n) = false.
Proof.
  intros Hp. rewrite string_exists_app.
  rewrite (string_forall_no_dot is_prefix_char) by
    (done || apply prefix_char_not_dot).
  rewrite (string_forall_no_dot is_digit); [done|apply digit_not_dot|].
  apply pretty_N_digits.
Qed.

(** A range token [<prefix><start>..<end>] or [<prefix><start>...<end>] with
    start below end expands to the [end - start + 1] ids
    [<prefix><start>], ..., [<prefix><end>], the numbers written without
    leading zeros; the ids are pairwise different and none holds a dot. *)
Theorem parse_question_string_expansion :
  ∀ (prefix start dots stop : string),
    prefix ≠ "" → string_forall is_prefix_char prefix = true →
    start ≠ "" → string_forall is_digit start = true →
    stop ≠ "" → string_forall is_digit stop = true →
    dots = ".." ∨ dots = "..." →
    (int_of_digits start < int_of_digits stop)%N →
    let first := int_of_digits start in
    let count := S (N.to_nat (int_of_digits stop - first)) in
    let ids := (λ i, prefix +:+ pretty (first + N.of_nat i)%N) <$> seq 0 count in
    parse_question_string (prefix +:+ start +:+ dots +:+ stop) = Returned ids
    ∧ length ids = count
    ∧ NoDup ids
    ∧ Forall (λ id, string_exists is_dot id = false) ids.
Proof.
  intros prefix start dots stop Hp Hpc Hs Hsd He Hed Hdots Hlt first count ids.
  split; [|split; [|split]].
  - destruct (range_pattern_findall prefix start dots stop) as [more Hfind];
      try done.
    unfold parse_question_string.
    rewrite string_exists_app_r.
    2:{ apply string_exists_app_r, string_exists_app_l.
        by destruct Hdots as [-> | ->]. }
    rewrite Hfind. fold first.
    destruct (int_of_digits stop <=? first)%N eqn:Hle;
      [apply N.leb_le in Hle; lia|].
    subst ids count. unfold py_range. f_equal.
    rewrite <- list_fmap_compose.
    replace (N.to_nat (int_of_digits stop + 1 - first))
      with (S (N.to_nat (int_of_digits stop - first)))
      by (unfold first in *; lia).
    done.
  - subst ids. by rewrite length_fmap, length_seq.
  - subst ids. apply NoDup_fmap_2_strong; [|apply NoDup_seq].
    intros i j _ _ Hij. apply (inj (String.app prefix)) in Hij.
    apply (inj pretty) in Hij. lia.
  - subst ids. apply Forall_fmap, Forall_forall. intros i _. cbn.
    by apply question_id_no_dot.
Qed.

Lemma parse_question_string_expansion_witness :
  parse_question_string "Q08..11" = Returned ["Q8"; "Q9"; "Q10"; "Q11"].
Proof.
  refine (eq_trans
            (proj1 (parse_question_string_expansion "Q" "08" ".." "11"
                      _ eq_refl _ eq_refl _ eq_refl _ _)) _);
    first [ discriminate | by left | by vm_compute ].
Defined.

Lemma has_double_dot_tail c s :
  has_double_dot (String c s) = false → has_double_dot s = false.
Proof.
  cbn [has_double_dot]. destruct s as [|c' s]; [done|].
  by intros [_ ?]%orb_false_elim.
Qed.

Lemma has_double_dot_drop n : ∀ s,
  has_double_dot s = false → has_double_dot (string_drop n s) = false.
Proof.
  induction n as [|n IH]; intros [|c s] Hs; try done.
  cbn [string_drop]. apply IH. by eapply has_double_dot_tail.
Qed.

Lemma run_length_dots_bound s :
  has_double_dot s = false → (run_length is_dot s <= 1)%nat.
Proof.
  destruct s as [|c [|c' s]]; cbn [has_double_dot run_length].
  - lia.
  - destruct (is_dot c); lia.
  - intros [Hcc _]%orb_false_elim.
    destruct (is_dot c); [|lia]. cbn in Hcc. rewrite Hcc. lia.
Qed.

Lemma re_backtrack_none {A} (k : nat → option A) base extra :
  (∀ n, k n = None) → re_backtrack k base extra = None.
Proof.
  intros Hk. induction extra as [|extra IH]; cbn [re_backtrack];
    by rewrite Hk.
Qed.

Lemma re_match_here_step_none it items s :
  (∀ n, re_match_here items (string_drop n s) = None) →
  re_match_here (it :: items) s = None.
Proof.
  intros Hrest. cbn [re_match_here]. cbv zeta.
  destruct (_ <? _)%nat; [done|].
  apply re_backtrack_none. intros n. by rewrite Hrest.
Qed.

Lemma range_pattern_needs_double_dot s :
  has_double_dot s = false → re_match_here range_pattern s = None.
Proof.
  intros Hs. unfold range_pattern.
  apply re_match_here_step_none. intros n1.
  apply re_match_here_step_none. intros n2.
  set (t := string_drop n2 (string_drop n1 s)).
  assert (Ht : has_double_dot t = false)
    by (by do 2 apply has_double_dot_drop).
  cbn [re_match_here re_class rep_min rep_max]. cbv zeta.
  pose proof (run_length_dots_bound t Ht) as Hrun.
  destruct (_ <? 2)%nat eqn:E; [done|]. apply Nat.ltb_ge in E. lia.
Qed.

Lemma range_pattern_needs_prefix_char s :
  head_outside is_prefix_char s → re_match_here range_pattern s = None.
Proof.
  intros Hs. unfold range_pattern.
  cbn [re_match_here re_class rep_min rep_max]. cbv zeta.
  assert (run_length is_prefix_char s = 0%nat) as ->; [|done].
  destruct s as [|c s]; [done|]. cbn in *. by rewrite Hs.
Qed.

Lemma re_findall_from_none items : ∀ fuel s,
  (∀ n, re_match_here items (string_drop n s) = None) →
  re_findall_from fuel items s = [].
Proof.
  induction fuel as [|fuel IH]; intros s Hs; [done|].
  cbn [re_findall_from]. rewrite (Hs 0%nat : re_match_here items s = None).
  destruct s as [|c s]; [done|]. apply IH. intros n. apply (Hs (S n)).
Qed.

Lemma no_prefix_char_drop n : ∀ s,
  string_forall (λ c, negb (is_prefix_char c)) s = true →
  head_outside is_prefix_char (string_drop n s).
Proof.
  induction n as [|n IH]; intros [|c s] Hs; try done.
  - cbn in *. apply andb_prop in Hs as [Hc _]. by apply negb_true_iff.
  - cbn [string_drop]. apply IH. cbn in Hs. by apply andb_prop in Hs as [_ ?].
Qed.

(** A token that holds a dot but is no range raises [IndexError], not the
    range-definition error: this is so for every token without two dots in
    a row (a single dot, as in q1.5), and for every token without a
    character before the digits (only dots and digits, as in 1..5). *)
Theorem parse_question_string_not_a_range :
  ∀ (question_string : string),
    string_exists is_dot question_string = true →
    has_double_dot question_string = false
    ∨ string_forall (λ c, negb (is_prefix_char c)) question_string = true →
    parse_question_string question_string = Raised PyIndexError.
Proof.
  intros q Hdot Hshape. unfold parse_question_string. rewrite Hdot.
  unfold re_findall. rewrite re_findall_from_none; [done|].
  intros n. destruct Hshape as [Hdd|Hnp].
  - apply range_pattern_needs_double_dot. by apply has_double_dot_drop.
  - apply range_pattern_needs_prefix_char. by apply no_prefix_char_drop.
Qed.

Lemma parse_question_string_not_a_range_witness :
  parse_question_string "q1.5" = Raised PyIndexError
  ∧ parse_question_string "1..5" = Raised PyIndexError.
Proof.
  split; apply parse_question_string_not_a_range;
    first [ reflexivity | by left | by right ].
Defined.

Lemma for_result_app {A B} (body : B → A → result B) l1 l2 : ∀ acc,
  for_result body acc (l1 ++ l2)
  = (acc' ← for_result body acc l1; for_result body acc' l2).
Proof.
  induction l1 as [|x l1 IH]; intros acc; [done|].
  cbn [app for_result]. destruct (body acc x) as [e|acc']; [done|].
  cbn [mbind result_bind]. apply IH.
Qed.

Lemma parse_questions_acc key questions : ∀ acc,
  for_result
    (λ parsed_questions question_string,
       questions_array ← parse_question_string question_string;
       Returned (parsed_questions ++ questions_array))
    acc questions
  = (λ l, acc ++ l) <$> parse_questions key questions.
Proof.
  unfold parse_questions. rewrite parse_questions_chain.
  induction questions as [|q qs IH]; intros acc.
  { cbn. by rewrite app_nil_r. }
  cbn [for_result]. destruct (parse_question_string q) as [e|arr]; [done|].
  cbn [mbind result_bind]. rewrite (IH (acc ++ arr)), (IH ([] ++ arr)).
  destruct (for_result _ [] qs) as [e|l]; [done|].
  cbn. by rewrite app_assoc.
Qed.

(** [parse_questions] flattens and does nothing else: the empty list gives
    the empty list, one token gives its expansion, a concatenation of token
    lists gives the concatenation of their results (the first exception
    wins), and the section key has no influence. Hence a list of bare ids
    comes back as it is, repeated ids included. *)
Theorem parse_questions_flattens :
  ∀ (key : string),
    parse_questions key [] = Returned []
    ∧ (∀ question_string,
         parse_questions key [question_string]
         = parse_question_string question_string)
    ∧ (∀ tokens1 tokens2,
         parse_questions key (tokens1 ++ tokens2)
         = (ids1 ← parse_questions key tokens1;
            ids2 ← parse_questions key tokens2;
            Returned (ids1 ++ ids2)))
    ∧ (∀ key' tokens, parse_questions key tokens = parse_questions key' tokens)
    ∧ (∀ ids, Forall (λ id, string_exists is_dot id = false) ids →
              parse_questions key ids = Returned ids).
Proof.
  intros key.
  assert (Hone : ∀ q, parse_questions key [q] = parse_question_string q).
  { intros q. unfold parse_questions. rewrite parse_questions_chain.
    cbn [for_result]. by destruct (parse_question_string q). }
  assert (Happ : ∀ tokens1 tokens2,
            parse_questions key (tokens1 ++ tokens2)
            = (ids1 ← parse_questions key tokens1;
               ids2 ← parse_questions key tokens2;
               Returned (ids1 ++ ids2))).
  { intros tokens1 tokens2.
    unfold parse_questions at 1.
    rewrite parse_questions_chain, for_result_app.
    rewrite (parse_questions_acc key).
    destruct (parse_questions key tokens1) as [e|ids1]; [done|].
    cbn [fmap result_fmap mbind result_bind app].
    rewrite (parse_questions_acc key).
    by destruct (parse_questions key tokens2). }
  split; [done|]. split; [done|]. split; [done|]. split.
  - intros key' tokens. unfold parse_questions.
    by rewrite !parse_questions_chain.
  - induction 1 as [|id ids Hid _ IH]; [done|].
    change (id :: ids) with ([id] ++ ids). rewrite Happ, Hone, IH.
    unfold parse_question_string. by rewrite Hid.
Qed.

(** ** Parsing the marking of a section *)

Section ParseSchemeMarking.

Variable BONUS_SECTION_PREFIX : string.
Variable py_float : string → result float.
Variable py_float_of_Fraction : string → result float.

Local Abbreviation parse_marking :=
  (parse_scheme_marking BONUS_SECTION_PREFIX py_float py_float_of_Fraction).
Local Abbreviation parsed := (parsed_marking_value py_float py_float_of_Fraction).
Local Abbreviation warning :=
  (incorrect_warning BONUS_SECTION_PREFIX py_float py_float_of_Fraction).

(** The three verdicts are parsed in the order correct, incorrect, unmarked;
    the first value that fails to parse ends the call. *)
Lemma parse_scheme_marking_run key raw records :
  parse_marking key raw records
  = match parsed (on_correct raw) with
    | inl e => (Raised e, records)
    | inr c =>
        match parsed (on_incorrect raw) with
        | inl e => (Raised e, records)
        | inr i =>
            match parsed (on_unmarked raw) with
            | inl e => (Raised e, records ++ warning key (on_incorrect raw))
            | inr u =>
                (Returned (PerVerdict c i u),
                 records ++ warning key (on_incorrect raw))
            end
        end
    end.
Proof.
  destruct raw as [[tc|nc|ac] [ti|ni|ai] [tu|nu|au]];
    unfold parse_scheme_marking, MARKING_VERDICT_TYPES, parsed_marking_value,
      incorrect_warning;
    cbn [for_fold pv_get pv_set on_correct on_incorrect on_unmarked];
    unfold mbind, M_bind, mret, M_ret, lift_result, log, modify_state;
    repeat match goal with
           | |- context [parse_float_or_fraction ?a ?b ?t] =>
               generalize (parse_float_or_fraction a b t); intros [?|?]
           end;
    cbn [fmap result_fmap bool_decide decide_rel andb negb
         on_correct on_incorrect on_unmarked];
    rewrite ?andb_false_r, ?andb_true_r, ?app_nil_r;
    try reflexivity;
    repeat match goal with
           | |- context [(0 <? ?f)%float] => destruct (0 <? f)%float
           | |- context [startswith ?k ?p] => destruct (startswith k p)
           end;
    cbn [andb negb]; rewrite ?app_nil_r; reflexivity.
Qed.

End ParseSchemeMarking.

(** A call of [parse_scheme_marking] logs at most one record, a warning
    about the incorrect verdict: only when its value is a string that parses
    to a float above zero and the section key does not start with the bonus
    prefix. A positive correct or unmarked value is never warned about, and a
    section with the bonus prefix never is. The warning is logged as soon as
    the correct verdict's value has parsed, also when the unmarked one then
    fails. *)
Theorem parse_scheme_marking_warning :
  ∀ (BONUS_SECTION_PREFIX : string)
    (py_float py_float_of_Fraction : string → result float)
    (key : string) (raw : per_verdict json) (records : logger),
    let parse := parse_float_or_fraction py_float py_float_of_Fraction in
    let records' :=
      (parse_scheme_marking BONUS_SECTION_PREFIX py_float py_float_of_Fraction
         key raw records).2 in
    (records' = records
     ∨ ∃ text f,
         records' = records ++ [Warning_positive_incorrect f key]
         ∧ on_incorrect raw = JString text
         ∧ parse text = Returned f
         ∧ (0 <? f)%float = true
         ∧ startswith key BONUS_SECTION_PREFIX = false)
    ∧ (startswith key BONUS_SECTION_PREFIX = true → records' = records)
    ∧ (∀ text f,
         on_incorrect raw = JString text → parse text = Returned f →
         (0 <? f)%float = true →
         startswith key BONUS_SECTION_PREFIX = false →
         (∀ e, parsed_marking_value py_float py_float_of_Fraction
                 (on_correct raw) ≠ Raised e) →
         records' = records ++ [Warning_positive_incorrect f key]).
Proof.
  intros BONUS pf pff key raw records parse records'. subst records'.
  rewrite parse_scheme_marking_run.
  assert (Hw : incorrect_warning BONUS pf pff key (on_incorrect raw) = []
               ∨ ∃ text f,
                   incorrect_warning BONUS pf pff key (on_incorrect raw)
                   = [Warning_positive_incorrect f key]
                   ∧ on_incorrect raw = JString text
                   ∧ parse text = Returned f
                   ∧ (0 <? f)%float = true
                   ∧ startswith key BONUS = false).
  { unfold incorrect_warning. destruct (on_incorrect raw) as [text|n|items];
      [|by left..].
    destruct (parse_float_or_fraction pf pff text) as [e|f] eqn:Hf;
      [by left|].
    destruct (0 <? f)%float eqn:Hpos; [|by left].
    destruct (startswith key BONUS) eqn:Hb; [by left|].
    right. by exists text, f. }
  split; [|split].
  - destruct (parsed_marking_value pf pff (on_correct raw)); [by left|].
    destruct (parsed_marking_value pf pff (on_incorrect raw)); [by left|].
    destruct Hw as [->|(text & f & -> & ?)].
    + left. by destruct (parsed_marking_value pf pff (on_unmarked raw));
        cbn; rewrite app_nil_r.
    + right. exists text, f.
      by destruct (parsed_marking_value pf pff (on_unmarked raw)).
  - intros Hb.
    assert (incorrect_warning BONUS pf pff key (on_incorrect raw) = []) as ->.
    { destruct Hw as [?|(text & f & _ & _ & _ & _ & ?)]; [done|congruence]. }
    rewrite app_nil_r. by repeat case_match.
  - intros text f Hi Hf Hpos Hb Hc.
    destruct (parsed_marking_value pf pff (on_correct raw)) as [e|c] eqn:Ec;
      [by destruct (Hc e)|].
    unfold parsed_marking_value at 1, incorrect_warning.
    rewrite Hi. fold parse. rewrite Hf. cbn [fmap result_fmap].
    rewrite Hpos, Hb. by destruct (parsed_marking_value pf pff (on_unmarked raw)).
Qed.


(** What [parse_scheme_marking] returns never holds a list: a string has
    become a float, a number is kept, and a list has become the iterator of
    [map] over its items, not one of which was converted or even looked at.
    So a marking without strings is always accepted, and silently, whatever
    its lists hold. *)
Theorem parse_scheme_marking_never_list :
  ∀ (BONUS_SECTION_PREFIX : string)
    (py_float py_float_of_Fraction : string → result float)
    (key : string) (raw : per_verdict json) (records : logger),
    let run :=
      parse_scheme_marking BONUS_SECTION_PREFIX py_float py_float_of_Fraction
        key raw records in
    (∀ rules, run.1 = Returned rules →
       no_list_marking rules
       ∧ ∀ v,
           match pv_get raw v with
           | JArray items => pv_get rules v = MarkMapObject items
           | JNumber n => pv_get rules v = MarkNumber n
           | JString text =>
               ∃ f, parse_float_or_fraction py_float py_float_of_Fraction text
                    = Returned f
                    ∧ pv_get rules v = MarkNumber (PyFloat f)
           end)
    ∧ ((∀ v text, pv_get raw v ≠ JString text) →
       ∃ rules, run = (Returned rules, records)).
Proof.
  intros BONUS pf pff key raw records run. subst run.
  rewrite parse_scheme_marking_run.
  assert (Hval : ∀ r x, parsed_marking_value pf pff r = Returned x →
            (∀ items, x ≠ MarkList items)
            ∧ match r with
              | JArray items => x = MarkMapObject items
              | JNumber n => x = MarkNumber n
              | JString text =>
                  ∃ f, parse_float_or_fraction pf pff text = Returned f
                       ∧ x = MarkNumber (PyFloat f)
              end).
  { intros [text|n|items] x; cbn.
    - destruct (parse_float_or_fraction pf pff text) as [e|f]; [done|].
      intros [= <-]. split; [done|]. by exists f.
    - by intros [= <-].
    - by intros [= <-]. }
  split.
  - intros rules.
    destruct (parsed_marking_value pf pff (on_correct raw)) as [e|c] eqn:Ec;
      [done|].
    destruct (parsed_marking_value pf pff (on_incorrect raw)) as [e|i] eqn:Ei;
      [done|].
    destruct (parsed_marking_value pf pff (on_unmarked raw)) as [e|u] eqn:Eu;
      [done|].
    intros [= <-].
    destruct (Hval _ _ Ec) as [Hc1 Hc2], (Hval _ _ Ei) as [Hi1 Hi2],
      (Hval _ _ Eu) as [Hu1 Hu2].
    split; [by intros []|by intros []].
  - intros Hns.
    assert (Hok : ∀ v, ∃ x, parsed_marking_value pf pff (pv_get raw v)
                            = Returned x
                            ∧ incorrect_warning BONUS pf pff key (pv_get raw v)
                              = []).
    { intros v. pose proof (Hns v) as Hv.
      destruct (pv_get raw v) as [text|n|items]; cbn; eauto.
      by destruct (Hv text). }
    destruct (Hok correct) as (c & Hc & _), (Hok incorrect) as (i & Hi & Hw),
      (Hok unmarked) as (u & Hu & _).
    cbn [pv_get] in Hc, Hi, Hw, Hu. rewrite Hc, Hi, Hu, Hw, app_nil_r. eauto.
Qed.

Lemma parse_scheme_marking_never_list_witness :
  ∃ rules,
    parse_scheme_marking "BONUS" (λ _, Raised PyValueError)
      (λ _, Raised PyValueError) "SECTION_1"
      (PerVerdict (JNumber (PyInt 1))
                  (JArray [JString "zero"; JArray []])
                  (JNumber (PyInt 0)))
      []
    = (Returned rules, []).
Proof.
  apply (proj2 (parse_scheme_marking_never_list "BONUS"
                  (λ _, Raised PyValueError) (λ _, Raised PyValueError)
                  "SECTION_1" _ [])).
  by intros [] text.
Defined.

(** ** What the constructors build *)




(** Reading back what was written, and nothing else changed. *)
Lemma dict_set_lookup {A} key (value : A) d :
  NoDup d.*1 →
  ∀ k v, (k, v) ∈ dict_set key value d ↔
         (k = key ∧ v = value) ∨ (k ≠ key ∧ (k, v) ∈ d).
Proof.
  intros Hnd k v. induction d as [|[k0 v0] d IH]; cbn [dict_set].
  - rewrite list_elem_of_singleton. split.
    + intros [= -> ->]. by left.
    + intros [[-> ->]|[_ Hin]]; [done|by apply elem_of_nil in Hin].
  - cbn [fmap list_fmap fst] in Hnd. apply NoDup_cons in Hnd as [Hk0 Hd].
    case_decide as Hk.
    + subst k0. rewrite !elem_of_cons. split.
      * intros [[= -> ->]|Hin]; [by left|]. right. split; [|by right].
        intros ->. apply Hk0. apply list_elem_of_fmap. by exists (key, v).
      * intros [[-> ->]|[Hne [[= -> ->]|Hin]]]; [by left|done|by right].
    + rewrite !elem_of_cons, (IH Hd). split.
      * intros [[= -> ->]|[[-> ->]|[Hne Hin]]];
          [right; split; [congruence|by left]|by left|].
        right. split; [done|by right].
      * intros [[-> ->]|[Hne [[= -> ->]|Hin]]]; [right; by left|by left|].
        right. right. by split.
Qed.

Section Constructors.

Variable DEFAULT_SECTION_KEY : string.
Variable BONUS_SECTION_PREFIX : string.
Variable py_float : string → result float.
Variable py_float_of_Fraction : string → result float.

Local Abbreviation new_scheme :=
  (SectionMarkingScheme_init DEFAULT_SECTION_KEY BONUS_SECTION_PREFIX py_float
     py_float_of_Fraction).
Local Abbreviation new_evaluation_config :=
  (EvaluationConfig_init DEFAULT_SECTION_KEY BONUS_SECTION_PREFIX py_float
     py_float_of_Fraction).



End Constructors.



(** ** When validate_all accepts *)

Lemma collect_section_questions_complete DEFAULT_SECTION_KEY ms : ∀ acc,
  (∀ i key s, ms !! i = Some (key, s) → key ≠ DEFAULT_SECTION_KEY →
              is_Some (questions s)) →
  sections_pairwise_disjoint DEFAULT_SECTION_KEY ms →
  acc ## covered_questions DEFAULT_SECTION_KEY ms →
  collect_section_questions DEFAULT_SECTION_KEY acc ms
  = Returned (acc ∪ covered_questions DEFAULT_SECTION_KEY ms).
Proof.
  induction ms as [|[key s] ms IH]; intros acc Hsome Hpw Hacc.
  { rewrite covered_questions_nil. cbn. f_equal. set_solver. }
  assert (Hsome' : ∀ i key s, ms !! i = Some (key, s) →
                     key ≠ DEFAULT_SECTION_KEY → is_Some (questions s))
    by (intros i; apply (Hsome (S i))).
  assert (Hpw' : sections_pairwise_disjoint DEFAULT_SECTION_KEY ms).
  { intros i j k1 s1 k2 s2 Hij H1 H2.
    apply (Hpw (S i) (S j) k1 s1 k2 s2); [congruence|done..]. }
  rewrite covered_questions_cons in *. cbn [collect_section_questions].
  case_decide as Hkey; [by apply IH|].
  destruct (Hsome 0%nat key s eq_refl Hkey) as [qs Hqs]. rewrite Hqs.
  assert (Hset : section_set s = list_to_set qs)
    by (unfold section_set; by rewrite Hqs).
  rewrite Hset in *.
  rewrite bool_decide_eq_true_2 by set_solver.
  rewrite IH; [f_equal; set_solver|done|done|].
  assert (list_to_set qs ## covered_questions DEFAULT_SECTION_KEY ms).
  { intros q Hq1 Hq2.
    apply elem_of_covered_questions in Hq2 as (j & k2 & s2 & Hj & Hk2 & Hq2).
    apply (Hpw 0%nat (S j) key s k2 s2 ltac:(done) eq_refl Hj Hkey Hk2 q);
      [by rewrite Hset|done]. }
  set_solver.
Qed.

(** [validate_all] returns exactly when the two lists of the answer key have
    the same length, every explicit section has a question list, the
    explicit sections are pairwise disjoint, their union is the set of
    answer-key ids, and the response holds at least one id that is not in
    the answer key. Returning, it leaves the state as it was; raising, it
    has logged at most one record and changed nothing else; and unequal
    lengths are reported before anything else is looked at. *)
Theorem validate_all_accepts_iff :
  ∀ (DEFAULT_SECTION_KEY : string) (omr_response : gmap string string)
    (w : world),
    let cfg := evaluation_config w in
    let answer_key : gset string := list_to_set (questions_in_order cfg) in
    let run := validate_all DEFAULT_SECTION_KEY omr_response w in
    (run.1 = Returned () ↔
       length (questions_in_order cfg) = length (answers_in_order cfg)
       ∧ (∀ i key s, marking_scheme cfg !! i = Some (key, s) →
                     key ≠ DEFAULT_SECTION_KEY → is_Some (questions s))
       ∧ sections_pairwise_disjoint DEFAULT_SECTION_KEY (marking_scheme cfg)
       ∧ covered_questions DEFAULT_SECTION_KEY (marking_scheme cfg)
         = answer_key
       ∧ ¬ dom omr_response ⊆ answer_key)
    ∧ (run.1 = Returned () → run.2 = w)
    ∧ (run.2 = w ∨ ∃ r, run.2 = add_log r w)
    ∧ (length (questions_in_order cfg) ≠ length (answers_in_order cfg) →
       run = (Raised AnswerKeyLengthError,
              add_log (Critical_answer_key (questions_in_order cfg)
                         (answers_in_order cfg)) w)).
Proof.
  intros DEFAULT resp w cfg answer_key run.
  split; [split|split; [|split]].
  - intros Hret.
    destruct (validate_all_returned _ _ _ Hret) as (_ & Hlen & Hcol & Hresp).
    destruct (collect_section_questions_returned _ _ _ _ Hcol)
      as (HX & _ & Hpw & Hsome).
    split; [done|]. split; [done|]. split; [done|]. split; [|done].
    fold cfg in HX. set_solver.
  - intros (Hlen & Hsome & Hpw & Hcov & Hresp).
    subst run. rewrite validate_all_run. unfold validate_all_outcome.
    fold cfg. rewrite decide_False by (intros H; by apply H).
    rewrite collect_section_questions_complete by (done || set_solver).
    rewrite Hcov. fold answer_key.
    rewrite decide_False by (intros H; apply H; set_solver).
    by rewrite decide_False.
  - intros Hret. subst run.
    by destruct (validate_all_returned _ _ _ Hret) as (-> & _).
  - subst run. rewrite validate_all_run. unfold validate_all_outcome.
    repeat case_match; cbn [snd]; eauto.
  - intros Hlen. subst run. rewrite validate_all_run.
    unfold validate_all_outcome. fold cfg. by rewrite decide_True.
Qed.

(** ** Which section scores a question *)

Lemma route_table_insert_elem (ref : nat) (qs : list string) :
  ∀ (table : gmap string nat) q j,
    foldl (λ t q, <[q := ref]> t) table qs !! q = Some j →
    (j = ref ∧ q ∈ qs) ∨ table !! q = Some j.
Proof.
  induction qs as [|q0 qs IH]; intros table q j Hq; [by right|].
  cbn [foldl] in Hq. destruct (IH _ _ _ Hq) as [[-> Hin]|Hq'].
  { left. split; [done|by right]. }
  destruct (decide (q0 = q)) as [->|Hne].
  - rewrite lookup_insert_eq in Hq'. left. split; [congruence|by left].
  - rewrite lookup_insert_ne in Hq' by done. by right.
Qed.

Lemma route_table_insert_is_Some (ref : nat) (qs : list string) :
  ∀ (table : gmap string nat) q,
    is_Some (table !! q) ∨ q ∈ qs →
    is_Some (foldl (λ t q, <[q := ref]> t) table qs !! q).
Proof.
  induction qs as [|q0 qs IH]; intros table q Hq.
  { destruct Hq as [?|Hin]; [done|by apply elem_of_nil in Hin]. }
  cbn [foldl]. apply IH.
  destruct (decide (q0 = q)) as [->|Hne].
  - left. rewrite lookup_insert_eq. eauto.
  - rewrite lookup_insert_ne by done.
    destruct Hq as [?|[->|?]%elem_of_cons]; [by left|done|by right].
Qed.

Lemma enumerate_from_lookup {A} (l : list A) :
  ∀ n i x, l !! i = Some x → (n + i, x)%nat ∈ enumerate_from n l.
Proof.
  induction l as [|y l IH]; intros n i x Hi; [done|].
  cbn [enumerate_from]. destruct i as [|i]; cbn in Hi.
  - injection Hi as ->. rewrite Nat.add_0_r. by left.
  - right. replace (n + S i)%nat with (S n + i)%nat by lia. by apply IH.
Qed.

Section Routing.

Variable DEFAULT_SECTION_KEY : string.

(** The routing table holds exactly the questions of the explicit sections,
    each sent to an explicit section that lists it. *)
Lemma route_questions_table ms table dflt :
  route_questions DEFAULT_SECTION_KEY ms = Returned (table, dflt) →
  (∀ q j, table !! q = Some j →
     ∃ key s qs, ms !! j = Some (key, s) ∧ key ≠ DEFAULT_SECTION_KEY
                 ∧ questions s = Some qs ∧ q ∈ qs)
  ∧ (∀ j key s qs q,
       ms !! j = Some (key, s) → key ≠ DEFAULT_SECTION_KEY →
       questions s = Some qs → q ∈ qs → is_Some (table !! q))
  ∧ (∀ d, dflt = Some d →
       ∃ s, ms !! d = Some (DEFAULT_SECTION_KEY, s)).
Proof.
  unfold route_questions, enumerate.
  assert (Hgen : ∀ (l : list (nat * (string * SectionMarkingScheme)))
                   (t0 : gmap string nat) d0,
            for_result
              (λ '(QUESTION_WISE_SCHEMES, default_marking_scheme)
                 '(ref, (section_key, section_marking_scheme)),
                 if decide (section_key = DEFAULT_SECTION_KEY) then
                   Returned (QUESTION_WISE_SCHEMES, Some ref)
                 else
                   match questions section_marking_scheme with
                   | None => Raised PyTypeError
                   | Some section_questions =>
                       Returned
                         (foldl (λ table q, <[q := ref]> table)
                            QUESTION_WISE_SCHEMES section_questions,
                          default_marking_scheme)
                   end)
              (t0, d0) l
            = Returned (table, dflt) →
            (∀ q j, table !! q = Some j →
               t0 !! q = Some j
               ∨ ∃ key s qs, (j, (key, s)) ∈ l ∧ key ≠ DEFAULT_SECTION_KEY
                             ∧ questions s = Some qs ∧ q ∈ qs)
            ∧ (∀ q, is_Some (t0 !! q) → is_Some (table !! q))
            ∧ (∀ j key s qs q,
                 (j, (key, s)) ∈ l → key ≠ DEFAULT_SECTION_KEY →
                 questions s = Some qs → q ∈ qs → is_Some (table !! q))
            ∧ (∀ d, dflt = Some d →
                 d0 = Some d ∨ ∃ s, (d, (DEFAULT_SECTION_KEY, s)) ∈ l)).
  { induction l as [|[ref [key s]] l IH]; intros t0 d0 Hrun.
    { cbn in Hrun. injection Hrun as <- <-.
      split; [by left|]. split; [done|]. split; [|by left].
      by intros ? ? ? ? ? ?%elem_of_nil. }
    cbn [for_result] in Hrun. case_decide as Hkey.
    - cbn [mbind result_bind] in Hrun.
      destruct (IH _ _ Hrun) as (H1 & H2 & H3 & H4).
      split; [|split; [done|split]].
      + intros q j Hq. destruct (H1 q j Hq) as [?|(k & s' & qs & Hin & ?)];
          [by left|]. right. exists k, s', qs. split; [by right|done].
      + intros j k s' qs q [[= -> -> ->]|Hin]%elem_of_cons Hk Hqs Hq;
          [done|by eapply H3].
      + intros d Hd. destruct (H4 d Hd) as [[= <-]|[s' Hin]].
        * right. exists s. subst key. by left.
        * right. exists s'. by right.
    - destruct (questions s) as [qs0|] eqn:Hqs0; [|done].
      cbn [mbind result_bind] in Hrun.
      destruct (IH _ _ Hrun) as (H1 & H2 & H3 & H4).
      split; [|split; [|split]].
      + intros q j Hq.
        destruct (H1 q j Hq) as [Hq'|(k & s' & qs & Hin & ?)].
        * apply route_table_insert_elem in Hq' as [[-> Hin]|?]; [|by left].
          right. exists key, s, qs0. split; [by left|done].
        * right. exists k, s', qs. split; [by right|done].
      + intros q Hq. apply H2. apply route_table_insert_is_Some. by left.
      + intros j k s' qs q [[= -> -> ->]|Hin]%elem_of_cons Hk Hqs Hq.
        * apply H2. apply route_table_insert_is_Some. right. congruence.
        * by eapply H3.
      + intros d Hd. destruct (H4 d Hd) as [?|[s' Hin]]; [by left|].
        right. exists s'. by right. }
  intros Hrun. destruct (Hgen _ _ _ Hrun) as (H1 & _ & H3 & H4).
  split; [|split].
  - intros q j Hq. destruct (H1 q j Hq) as [Hq'|(k & s & qs & Hin & ?)].
    { by rewrite lookup_empty in Hq'. }
    apply enumerate_from_refs in Hin as [Hin _].
    rewrite Nat.sub_0_r in Hin. by exists k, s, qs.
  - intros j key s qs q Hj. apply (H3 j key s qs q).
    by apply (enumerate_from_lookup ms 0%nat j).
  - intros d Hd. destruct (H4 d Hd) as [?|[s Hin]]; [done|].
    apply enumerate_from_refs in Hin as [Hin _].
    rewrite Nat.sub_0_r in Hin. by exists s.
Qed.

Lemma score_question_untouched resp answers table dflt score q_index question
    i j w :
  table !! question = Some j → j ≠ i →
  marking_scheme
    (evaluation_config
       (score_question resp answers table dflt score q_index question w).2)
    !! i
  = marking_scheme (evaluation_config w) !! i.
Proof.
  intros Hq Hne. rewrite score_question_run. unfold score_question_outcome.
  rewrite Hq. cbn [default].
  repeat case_match; cbn [snd]; try done;
    cbn [append_row update_section with_config set_marking_scheme
         set_explanation_table evaluation_config marking_scheme];
    by rewrite list_lookup_insert_ne.
Qed.

Lemma scoring_loop_untouched resp answers table dflt i indexed_questions :
  ∀ score w,
    (∀ q_index question, (q_index, question) ∈ indexed_questions →
       ∃ j, table !! question = Some j ∧ j ≠ i) →
    marking_scheme
      (evaluation_config
         (scoring_loop resp answers table dflt score indexed_questions w).2)
      !! i
    = marking_scheme (evaluation_config w) !! i.
Proof.
  induction indexed_questions as [|[q_index question] rest IH];
    intros score w Hroute; [done|].
  rewrite scoring_loop_cons.
  destruct (Hroute q_index question) as (j & Hq & Hne); [by left|].
  pose proof (score_question_untouched resp answers table dflt score q_index
                question i j w Hq Hne) as Hstep.
  destruct (score_question _ _ _ _ _ _ _ _) as [[e|score'] w']; [done|].
  cbn [snd] in Hstep. rewrite IH; [done|].
  intros q_index' question' Hin. apply (Hroute q_index'). by right.
Qed.

End Routing.

(** The default section never scores: [validate_all] lets a pass go on only
    when every answer-key question is listed by an explicit section, and a
    listed question goes to the section that lists it. So whatever a pass
    does and however it ends, the section under the default key is after it
    what it was before, counters included. *)
Theorem default_section_never_scores :
  ∀ (DEFAULT_SECTION_KEY : string) (omr_response : gmap string string)
    (w : world) (i : nat) (s : SectionMarkingScheme),
    marking_scheme (evaluation_config w) !! i = Some (DEFAULT_SECTION_KEY, s) →
    marking_scheme
      (evaluation_config
         (evaluate_concatenated_response DEFAULT_SECTION_KEY omr_response w).2)
      !! i
    = Some (DEFAULT_SECTION_KEY, s).
Proof.
  intros DEFAULT resp w i s Hi. rewrite evaluate_run.
  destruct (validate_all DEFAULT resp w) as [[e|[]] w0] eqn:Hval.
  { pose proof (validate_all_config DEFAULT resp w) as Hcfg.
    rewrite Hval in Hcfg. cbn [snd] in *. by rewrite Hcfg. }
  pose proof (validate_all_returned DEFAULT resp w) as Hret.
  rewrite Hval in Hret. destruct (Hret eq_refl) as ([= ->] & _ & Hcol & _).
  destruct (collect_section_questions_returned _ _ _ _ Hcol)
    as (HX & _ & _ & Hsome).
  unfold scoring_pass. rewrite bind_run. unfold get_state at 1.
  cbv beta iota. rewrite bind_run. unfold lift_result at 1.
  destruct (route_questions DEFAULT _) as [e|[table dflt]] eqn:Hroute;
    [done|].
  destruct (route_questions_table _ _ _ _ Hroute) as (Hto & Hfrom & _).
  cbv beta iota. rewrite bind_run.
  assert (Hall : ∀ q_index question,
            (q_index, question)
              ∈ enumerate (questions_in_order (evaluation_config w)) →
            ∃ j, table !! question = Some j ∧ j ≠ i).
  { intros q_index question Hin.
    apply enumerate_from_refs in Hin as [Hin _].
    assert (Hq : question ∈ covered_questions DEFAULT
                   (marking_scheme (evaluation_config w))).
    { assert (question ∈ (list_to_set
                            (questions_in_order (evaluation_config w))
                          : gset string)) as Hak
        by (apply elem_of_list_to_set, list_elem_of_lookup; eauto).
      set_solver. }
    apply elem_of_covered_questions in Hq as (j & key & s' & Hj & Hkey & Hq).
    destruct (Hsome j key s' Hj Hkey) as [qs Hqs].
    destruct (Hfrom j key s' qs question Hj Hkey Hqs) as [j' Hj'].
    { unfold section_set in Hq. rewrite Hqs in Hq. cbn in Hq.
      by apply elem_of_list_to_set in Hq. }
    exists j'. split; [done|].
    destruct (Hto question j' Hj') as (k' & s'' & _ & Hk' & Hne' & _).
    intros ->. rewrite Hi in Hk'. congruence. }
  pose proof (scoring_loop_untouched resp
                (answers_in_order (evaluation_config w)) table dflt i
                (enumerate (questions_in_order (evaluation_config w)))
                0%float w Hall) as Hloop.
  destruct (scoring_loop _ _ _ _ _ _ _) as [[e|score] w1];
    cbn [snd] in *.
  { by rewrite Hloop. }
  rewrite bind_run.
  pose proof (conditionally_print_explanation_config w1) as Hprint.
  destruct (conditionally_print_explanation w1) as [[e|[]] w2];
    cbn [snd] in *; [|unfold mret, M_ret; cbn [snd]];
    by rewrite Hprint, Hloop.
Qed.

Lemma default_section_never_scores_witness :
  marking_scheme
    (evaluation_config
       (evaluate_concatenated_response "DEFAULT" response_with_extra
          (new_world two_section_config)).2)
    !! 1%nat
  = Some ("DEFAULT", new_section "DEFAULT" None quarter_penalty).
Proof.
  exact (default_section_never_scores "DEFAULT" response_with_extra
           (new_world two_section_config) 1%nat
           (new_section "DEFAULT" None quarter_penalty) eq_refl).
Defined.

(** ** The explanation table *)


Lemma row_of_question_set_streaks resp answers f s q_index question row :
  row_of_question resp answers (set_streaks f s) q_index question row
  ↔ row_of_question resp answers s q_index question row.
Proof. done. Qed.




Lemma scoring_pass_run DEFAULT_SECTION_KEY resp w :
  scoring_pass DEFAULT_SECTION_KEY resp w
  = match route_questions DEFAULT_SECTION_KEY
            (marking_scheme (evaluation_config w)) with
    | inl e => (Raised e, w)
    | inr (table, dflt) =>
        match scoring_loop resp (answers_in_order (evaluation_config w))
                table dflt 0%float
                (enumerate (questions_in_order (evaluation_config w))) w with
        | (inl e, w1) => (Raised e, w1)
        | (inr score, w1) =>
            (Returned score,
             if should_explain_scoring (evaluation_config w1) then
               {| evaluation_config := evaluation_config w1;
                  log_records := log_records w1;
                  console :=
                    console w1 ++ [explanation_table (evaluation_config w1)] |}
             else w1)
        end
    end.
Proof.
  unfold scoring_pass. rewrite bind_run. unfold get_state at 1.
  cbv beta iota. rewrite bind_run. unfold lift_result at 1.
  destruct (route_questions _ _) as [e|[table dflt]]; [done|].
  cbv beta iota. rewrite bind_run.
  destruct (scoring_loop _ _ _ _ _ _ _) as [[e|score] w1]; [done|].
  rewrite bind_run. unfold conditionally_print_explanation.
  rewrite bind_run. unfold get_state at 1. cbv beta iota.
  by destruct (should_explain_scoring (evaluation_config w1)).
Qed.



(** ** Scores and streak counters *)

Lemma collect_section_questions_frame DEFAULT_SECTION_KEY ms1 :
  ∀ ms2 acc,
    (λ ks, (ks.1, section_frame ks.2)) <$> ms1
    = (λ ks : string * SectionMarkingScheme, (ks.1, section_frame ks.2)) <$> ms2 →
    collect_section_questions DEFAULT_SECTION_KEY acc ms1
    = collect_section_questions DEFAULT_SECTION_KEY acc ms2.
Proof.
  induction ms1 as [|[k1 s1] ms1 IH]; intros [|[k2 s2] ms2] acc Heq;
    try done.
  rewrite !fmap_cons in Heq. unfold section_frame at 1 3 in Heq.
  cbn [fst snd] in Heq. injection Heq as -> _ _ Hq _ Hrest.
  cbn [collect_section_questions]. rewrite Hq.
  case_decide; [by apply IH|].
  destruct (questions s2) as [qs|]; [|done].
  case_bool_decide; [by apply IH|done].
Qed.

Lemma route_questions_frame DEFAULT_SECTION_KEY ms1 ms2 :
  (λ ks, (ks.1, section_frame ks.2)) <$> ms1
  = (λ ks : string * SectionMarkingScheme, (ks.1, section_frame ks.2)) <$> ms2 →
  route_questions DEFAULT_SECTION_KEY ms1
  = route_questions DEFAULT_SECTION_KEY ms2.
Proof.
  unfold route_questions, enumerate.
  generalize (∅ : gmap string nat, None : option nat) as acc.
  generalize 0%nat as n. revert ms2.
  induction ms1 as [|[k1 s1] ms1 IH]; intros [|[k2 s2] ms2] n acc Heq;
    try done.
  rewrite !fmap_cons in Heq. unfold section_frame at 1 3 in Heq.
  cbn [fst snd] in Heq. injection Heq as -> _ _ Hq _ Hrest.
  cbn [enumerate_from for_result]. destruct acc as [table dflt].
  rewrite Hq. case_decide.
  - cbn [mbind result_bind]. by apply IH.
  - destruct (questions s2) as [qs|]; [|done].
    cbn [mbind result_bind]. by apply IH.
Qed.

Lemma config_frame_lookup cfg1 cfg2 j :
  config_frame cfg1 = config_frame cfg2 →
  match marking_scheme cfg1 !! j, marking_scheme cfg2 !! j with
  | Some (key1, s1), Some (key2, s2) =>
      key1 = key2 ∧ section_frame s1 = section_frame s2
  | None, None => True
  | _, _ => False
  end.
Proof.
  unfold config_frame. intros [= _ _ _ Hms].
  apply (f_equal (λ l, l !! j)) in Hms. rewrite !list_lookup_fmap in Hms.
  destruct (marking_scheme cfg1 !! j) as [[k1 s1]|],
           (marking_scheme cfg2 !! j) as [[k2 s2]|]; try done.
  cbn [fmap option_fmap option_map fst snd] in Hms.
  unfold section_frame in *. split; congruence.
Qed.

Lemma no_list_marking_frame cfg1 cfg2 :
  config_frame cfg1 = config_frame cfg2 →
  (∀ key s, (key, s) ∈ marking_scheme cfg1 → no_list_marking (marking s)) →
  (∀ key s, (key, s) ∈ marking_scheme cfg2 → no_list_marking (marking s)).
Proof.
  intros Hfr Hno key s [j Hj]%list_elem_of_lookup.
  pose proof (config_frame_lookup cfg1 cfg2 j Hfr) as Hlk. rewrite Hj in Hlk.
  destruct (marking_scheme cfg1 !! j) as [[k1 s1]|] eqn:H1; [|done].
  destruct Hlk as [-> Hsf]. unfold section_frame in Hsf.
  injection Hsf as _ _ _ <-. apply (Hno key s1).
  by eapply list_elem_of_lookup_2.
Qed.

Lemma score_question_frame resp answers table dflt score q_index question
    w1 w2 :
  config_frame (evaluation_config w1) = config_frame (evaluation_config w2) →
  (∀ key s, (key, s) ∈ marking_scheme (evaluation_config w1) →
            no_list_marking (marking s)) →
  (score_question resp answers table dflt score q_index question w1).1
  = (score_question resp answers table dflt score q_index question w2).1.
Proof.
  intros Hfr Hno. rewrite !score_question_run. unfold score_question_outcome.
  destruct (answers !! q_index) as [correct_answer|]; [|done].
  destruct (resp !! question) as [marked_answer|]; [|done].
  destruct dflt as [fallback|]; [|done]. cbv zeta.
  pose proof (config_frame_lookup _ _
                (default fallback (table !! question)) Hfr) as Hlk.
  destruct (marking_scheme (evaluation_config w1) !! _) as [[k1 s1]|] eqn:H1,
           (marking_scheme (evaluation_config w2) !! _) as [[k2 s2]|];
    try done.
  destruct Hlk as [-> Hsf]. unfold section_frame in Hsf.
  injection Hsf as Hempty _ _ Hmarking.
  assert (verdict_of s1 marked_answer correct_answer
          = verdict_of s2 marked_answer correct_answer) as ->
    by (unfold verdict_of; by rewrite Hempty).
  rewrite <- Hmarking.
  assert (Hlist : no_list_marking (marking s1))
    by (apply (Hno k2); by eapply list_elem_of_lookup_2).
  set (v := verdict_of s2 marked_answer correct_answer).
  specialize (Hlist v). unfold peek_delta.
  destruct (pv_get (marking s1) v) as [n|items|pending];
    [|by destruct (Hlist items)|];
    by destruct (float_add_value score _).
Qed.

Lemma scoring_loop_frame resp answers table dflt indexed_questions :
  ∀ score w1 w2,
    config_frame (evaluation_config w1) = config_frame (evaluation_config w2) →
    (∀ key s, (key, s) ∈ marking_scheme (evaluation_config w1) →
              no_list_marking (marking s)) →
    (scoring_loop resp answers table dflt score indexed_questions w1).1
    = (scoring_loop resp answers table dflt score indexed_questions w2).1.
Proof.
  induction indexed_questions as [|[q_index question] rest IH];
    intros score w1 w2 Hfr Hno; [done|].
  rewrite !scoring_loop_cons.
  pose proof (score_question_frame resp answers table dflt score q_index
                question w1 w2 Hfr Hno) as Hstep.
  pose proof (score_question_related resp answers table dflt score q_index
                question w1) as [Hfr1 _].
  pose proof (score_question_related resp answers table dflt score q_index
                question w2) as [Hfr2 _].
  destruct (score_question _ _ _ _ _ _ _ w1) as [[e1|score1] w1'],
           (score_question _ _ _ _ _ _ _ w2) as [[e2|score2] w2'];
    cbn [fst snd] in *; try done.
  injection Hstep as ->. apply IH; [congruence|].
  by apply (no_list_marking_frame (evaluation_config w1)).
Qed.

Lemma evaluate_frame DEFAULT_SECTION_KEY resp w1 w2 :
  config_frame (evaluation_config w1) = config_frame (evaluation_config w2) →
  (∀ key s, (key, s) ∈ marking_scheme (evaluation_config w1) →
            no_list_marking (marking s)) →
  (evaluate_concatenated_response DEFAULT_SECTION_KEY resp w1).1
  = (evaluate_concatenated_response DEFAULT_SECTION_KEY resp w2).1.
Proof.
  intros Hfr Hno. rewrite !evaluate_run.
  assert (Hval : (validate_all DEFAULT_SECTION_KEY resp w1).1
                 = (validate_all DEFAULT_SECTION_KEY resp w2).1).
  { rewrite !validate_all_run. unfold validate_all_outcome.
    pose proof Hfr as Hfr'. unfold config_frame in Hfr'.
    injection Hfr' as _ Hq Ha Hms. rewrite Hq, Ha.
    rewrite (collect_section_questions_frame DEFAULT_SECTION_KEY _ _ ∅ Hms).
    case_decide; [done|].
    destruct (collect_section_questions _ _ _) as [e|X]; [done|].
    by repeat case_decide. }
  pose proof (validate_all_config DEFAULT_SECTION_KEY resp w1) as Hc1.
  pose proof (validate_all_config DEFAULT_SECTION_KEY resp w2) as Hc2.
  destruct (validate_all _ _ w1) as [[e1|[]] w1'],
           (validate_all _ _ w2) as [[e2|[]] w2'];
    cbn [fst snd] in *; try done.
  { by injection Hval as ->. }
  rewrite !scoring_pass_run, Hc1, Hc2.
  pose proof Hfr as Hfr'. unfold config_frame in Hfr'.
  injection Hfr' as _ Hq Ha Hms. rewrite Hq, Ha.
  rewrite (route_questions_frame DEFAULT_SECTION_KEY _ _ Hms).
  destruct (route_questions _ _) as [e|[table dflt]]; [done|].
  pose proof (scoring_loop_frame resp
                (answers_in_order (evaluation_config w2)) table dflt
                (enumerate (questions_in_order (evaluation_config w2)))
                0%float w1' w2') as Hloop.
  rewrite Hc1, Hc2 in Hloop. specialize (Hloop Hfr Hno).
  destruct (scoring_loop _ _ _ _ _ _ w1') as [[e1|score1] w1''],
           (scoring_loop _ _ _ _ _ _ w2') as [[e2|score2] w2''];
    cbn [fst snd] in *; done.
Qed.

(** When no marking of a configuration is held as a list, as in every
    configuration the constructor builds, the streak counters have no part
    in a score: two states that differ only in counters, rows of the
    explanation table, log and console give the same score or the same
    exception for the same response. So whatever was scored before on the
    same configuration object, a response is scored as on the first pass. *)
Theorem evaluate_score_ignores_streaks :
  ∀ (DEFAULT_SECTION_KEY : string) (omr_response : gmap string string)
    (w1 w2 : world),
    config_frame (evaluation_config w1) = config_frame (evaluation_config w2) →
    (∀ key s, (key, s) ∈ marking_scheme (evaluation_config w1) →
              no_list_marking (marking s)) →
    let run := evaluate_concatenated_response DEFAULT_SECTION_KEY in
    (run omr_response w1).1 = (run omr_response w2).1
    ∧ ∀ earlier_response,
        (run omr_response (run earlier_response w1).2).1
        = (run omr_response w1).1.
Proof.
  intros DEFAULT resp w1 w2 Hfr Hno run. subst run.
  split; [by apply evaluate_frame|].
  intros earlier.
  pose proof (evaluate_related DEFAULT earlier w1) as [Hfr' _].
  apply evaluate_frame; [done|].
  by apply (no_list_marking_frame (evaluation_config w1)).
Qed.

Lemma evaluate_score_ignores_streaks_witness :
  let w1 := new_world (one_section_config false) in
  let w2 :=
    new_world
      (new_config false ["q1"; "q2"] ["A"; "B"]
         [("DEFAULT", new_section "DEFAULT" None quarter_penalty);
          ("SECTION_1",
           set_streaks (λ _, PerVerdict 0 7 0)
             (new_section "SECTION_1" (Some ["q1"; "q2"]) quarter_penalty))]) in
  let run := evaluate_concatenated_response "DEFAULT" in
  (run response_with_extra w1).1 = (run response_with_extra w2).1
  ∧ ∀ earlier_response,
      (run response_with_extra (run earlier_response w1).2).1
      = (run response_with_extra w1).1.
Proof.
  apply (evaluate_score_ignores_streaks "DEFAULT" response_with_extra
           (new_world (one_section_config false))); [reflexivity|].
  intros key s Hin v items.
  apply elem_of_cons in Hin as [[= -> ->]|Hin]; [by destruct v|].
  apply elem_of_cons in Hin as [[= -> ->]|Hin]; [by destruct v|].
  by apply elem_of_nil in Hin.
Defined.

(** ** When a pass returns a score *)

Lemma route_questions_default DEFAULT_SECTION_KEY ms table dflt i s :
  route_questions DEFAULT_SECTION_KEY ms = Returned (table, dflt) →
  ms !! i = Some (DEFAULT_SECTION_KEY, s) →
  is_Some dflt.
Proof.
  unfold route_questions, enumerate.
  generalize (∅ : gmap string nat) as t0.
  generalize (None : option nat) as d0. generalize 0%nat as n.
  assert (Hkeep : ∀ (l : list (string * SectionMarkingScheme)) n d t0,
            for_result
              (λ '(QUESTION_WISE_SCHEMES, default_marking_scheme)
                 '(ref, (section_key, section_marking_scheme)),
                 if decide (section_key = DEFAULT_SECTION_KEY) then
                   Returned (QUESTION_WISE_SCHEMES, Some ref)
                 else
                   match questions section_marking_scheme with
                   | None => Raised PyTypeError
                   | Some section_questions =>
                       Returned
                         (foldl (λ table q, <[q := ref]> table)
                            QUESTION_WISE_SCHEMES section_questions,
                          default_marking_scheme)
                   end)
              (t0, Some d) (enumerate_from n l)
            = Returned (table, dflt) →
            is_Some dflt).
  { induction l as [|[key s0] l IH]; intros n d t0 Hrun.
    { cbn in Hrun. injection Hrun as <- <-. eauto. }
    cbn [enumerate_from for_result] in Hrun. case_decide.
    - cbn [mbind result_bind] in Hrun. by eapply IH.
    - destruct (questions s0); [|done].
      cbn [mbind result_bind] in Hrun. by eapply IH. }
  revert i. induction ms as [|[key s0] ms IH]; intros i n d0 t0 Hrun Hi;
    [done|].
  cbn [enumerate_from for_result] in Hrun. destruct i as [|i]; cbn in Hi.
  - injection Hi as -> ->. rewrite decide_True in Hrun by done.
    cbn [mbind result_bind] in Hrun. by eapply Hkeep.
  - case_decide.
    + cbn [mbind result_bind] in Hrun. by eapply Hkeep.
    + destruct (questions s0); [|done].
      cbn [mbind result_bind] in Hrun. by eapply IH.
Qed.

Lemma route_questions_returns DEFAULT_SECTION_KEY ms :
  (∀ i key s, ms !! i = Some (key, s) → key ≠ DEFAULT_SECTION_KEY →
              is_Some (questions s)) →
  ∃ routes, route_questions DEFAULT_SECTION_KEY ms = Returned routes.
Proof.
  unfold route_questions, enumerate.
  generalize (∅ : gmap string nat, None : option nat) as acc.
  generalize 0%nat as n.
  induction ms as [|[key s] ms IH]; intros n acc Hsome; [by eexists|].
  cbn [enumerate_from for_result]. destruct acc as [t0 d0].
  assert (Hsome' : ∀ i key s, ms !! i = Some (key, s) →
                     key ≠ DEFAULT_SECTION_KEY → is_Some (questions s))
    by (intros i; apply (Hsome (S i))).
  case_decide as Hkey.
  - cbn [mbind result_bind]. by apply IH.
  - destruct (Hsome 0%nat key s eq_refl Hkey) as [qs ->].
    cbn [mbind result_bind]. by apply IH.
Qed.

Lemma scoring_loop_returns resp answers table fallback indexed_questions :
  ∀ score w,
    (∀ q_index question, (q_index, question) ∈ indexed_questions →
       is_Some (answers !! q_index) ∧ is_Some (resp !! question)
       ∧ ∃ ref key s,
           table !! question = Some ref
           ∧ marking_scheme (evaluation_config w) !! ref = Some (key, s)
           ∧ numeric_marking (marking s)) →
    ∃ r, (scoring_loop resp answers table (Some fallback) score
            indexed_questions w).1 = Returned r.
Proof.
  induction indexed_questions as [|[q_index question] rest IH];
    intros score w Hall; [by eexists|].
  rewrite scoring_loop_cons.
  pose proof (score_question_related resp answers table (Some fallback) score
                q_index question w) as [Hfr _].
  destruct (Hall q_index question) as
    ([ca Hca] & [ma Hma] & ref & key & s & Href & Hs & Hnum); [by left|].
  assert (Hstep : ∃ r, (score_question resp answers table (Some fallback)
                          score q_index question w).1 = Returned r).
  { rewrite score_question_run. unfold score_question_outcome.
    rewrite Hca, Hma, Href.
    change (default fallback (Some ref)) with ref. cbv zeta. rewrite Hs.
    specialize (Hnum (verdict_of s ma ca)). unfold peek_delta.
    destruct (pv_get (marking s) (verdict_of s ma ca)) as [[z|f]|?|?];
      try done.
    - destruct Hnum as [f Hf]. unfold float_add_value. rewrite Hf.
      cbn [mbind result_bind]. destruct (should_explain_scoring _); by eexists.
    - cbn [float_add_value]. destruct (should_explain_scoring _); by eexists. }
  destruct (score_question _ _ _ _ _ _ _ _) as [[e|score'] w1];
    cbn [fst snd] in *; [by destruct Hstep|].
  apply IH. intros q_index' question' Hin.
  destruct (Hall q_index' question') as
    (Hca' & Hma' & ref' & key' & s' & Href' & Hs' & Hnum'); [by right|].
  split; [done|]. split; [done|].
  pose proof (config_frame_lookup _ _ ref' Hfr) as Hlk. rewrite Hs' in Hlk.
  destruct (marking_scheme (evaluation_config w1) !! ref') as [[k1 s1]|]
    eqn:Hs1; [|done].
  destruct Hlk as [-> Hsf]. unfold section_frame in Hsf.
  injection Hsf as _ _ _ Hmarking.
  exists ref', key', s1. split; [done|]. split; [done|]. by rewrite Hmarking.
Qed.

(** A pass returns a score when [validate_all] returns, some section has the
    default key, the response holds every question of the answer key, and
    every marking of an explicit section is a number that float addition
    takes. The marking of the default section has no part in it. *)
Theorem evaluate_returns_score :
  ∀ (DEFAULT_SECTION_KEY : string) (omr_response : gmap string string)
    (w : world),
    let cfg := evaluation_config w in
    (validate_all DEFAULT_SECTION_KEY omr_response w).1 = Returned () →
    (∃ i s, marking_scheme cfg !! i = Some (DEFAULT_SECTION_KEY, s)) →
    (∀ question, question ∈ questions_in_order cfg →
                 is_Some (omr_response !! question)) →
    (∀ key s, (key, s) ∈ marking_scheme cfg → key ≠ DEFAULT_SECTION_KEY →
              numeric_marking (marking s)) →
    ∃ score,
      (evaluate_concatenated_response DEFAULT_SECTION_KEY omr_response w).1
      = Returned score.
Proof.
  intros DEFAULT resp w cfg Hval (i & s & Hdefault) Hresp Hnum. subst cfg.
  rewrite evaluate_run.
  apply validate_all_returned in Hval as (-> & Hlen & Hcol & _).
  destruct (collect_section_questions_returned _ _ _ _ Hcol)
    as (HX & _ & _ & Hsome).
  rewrite scoring_pass_run.
  destruct (route_questions_returns DEFAULT _ Hsome) as [[table dflt] Hroute].
  rewrite Hroute.
  destruct (route_questions_default _ _ _ _ _ _ Hroute Hdefault)
    as [fallback ->].
  destruct (route_questions_table _ _ _ _ Hroute) as (Hto & Hfrom & _).
  destruct (scoring_loop_returns resp (answers_in_order (evaluation_config w))
              table fallback
              (enumerate (questions_in_order (evaluation_config w)))
              0%float w) as [r Hr].
  { intros q_index question Hin.
    apply enumerate_from_refs in Hin as [Hin _]. rewrite Nat.sub_0_r in Hin.
    split; [|split].
    - apply lookup_lt_is_Some. rewrite <- Hlen. by eapply lookup_lt_Some.
    - apply Hresp. by eapply list_elem_of_lookup_2.
    - assert (Hcov : question ∈ covered_questions DEFAULT
                       (marking_scheme (evaluation_config w))).
      { assert (question ∈ (list_to_set
                              (questions_in_order (evaluation_config w))
                            : gset string)) as Hak
          by (apply elem_of_list_to_set, list_elem_of_lookup; eauto).
        set_solver. }
      apply elem_of_covered_questions in Hcov
        as (j & key0 & s0 & Hj & Hkey0 & Hq0).
      destruct (Hsome j key0 s0 Hj Hkey0) as [qs0 Hqs0].
      destruct (Hfrom j key0 s0 qs0 question Hj Hkey0 Hqs0) as [ref Href].
      { unfold section_set in Hq0. rewrite Hqs0 in Hq0. cbn in Hq0.
        by apply elem_of_list_to_set in Hq0. }
      destruct (Hto question ref Href) as (key & s' & _ & Hs' & Hne & _).
      exists ref, key, s'. split; [done|]. split; [done|].
      apply (Hnum key); [by eapply list_elem_of_lookup_2|done]. }
  destruct (scoring_loop _ _ _ _ _ _ _) as [[e|score] w1];
    cbn [fst] in Hr; [done|].
  by exists score.
Qed.

Lemma evaluate_returns_score_witness :
  ∃ score,
    (evaluate_concatenated_response "DEFAULT" response_with_extra
       (new_world (one_section_config false))).1
    = Returned score.
Proof.
  apply (evaluate_returns_score "DEFAULT" response_with_extra
           (new_world (one_section_config false))).
  - reflexivity.
  - exists 0%nat, (new_section "DEFAULT" None quarter_penalty). reflexivity.
  - intros question Hin.
    apply elem_of_cons in Hin as [->|Hin]; [by eexists|].
    apply elem_of_cons in Hin as [->|Hin]; [by eexists|].
    by apply elem_of_nil in Hin.
  - intros key s Hin _ v.
    apply elem_of_cons in Hin as [[= -> ->]|Hin];
      [destruct v; try done; by eexists|].
    apply elem_of_cons in Hin as [[= -> ->]|Hin];
      [destruct v; try done; by eexists|].
    by apply elem_of_nil in Hin.
Defined.

(** ** What validate_all reports *)

#[local] Instance str_le_total : Total str_le.
Proof.
  intros a b. unfold str_le.
  destruct (String.leb_total a b) as [H|H]; rewrite H; [by left|by right].
Qed.

Lemma py_sorted_spec (X : gset string) :
  Sorted str_le (py_sorted X)
  ∧ NoDup (py_sorted X)
  ∧ (∀ q, q ∈ py_sorted X ↔ q ∈ X)
  ∧ (py_sorted X = [] ↔ X = ∅).
Proof.
  unfold py_sorted.
  pose proof (merge_sort_Permutation str_le (elements X)) as Hperm.
  split; [apply (Sorted_merge_sort str_le)|].
  split; [rewrite Hperm; apply NoDup_elements|].
  split; [intros q; by rewrite Hperm, elem_of_elements|].
  split.
  - intros Hnil. rewrite Hnil in Hperm.
    apply leibniz_equiv, elements_empty_inv.
    by apply Permutation_nil in Hperm.
  - intros ->. rewrite elements_empty in Hperm.
    symmetry in Hperm. by apply Permutation_nil in Hperm.
Qed.

(** On a configuration whose answer-key lists have the same length and whose
    explicit sections have question lists and are pairwise disjoint,
    [validate_all] goes on to compare three sets. If the sections cover less
    than the answer key, it logs the answer-key ids without a section, and
    the list is not empty. If a section lists an id outside the answer key,
    it logs those ids, not empty either, and says nothing of answer-key ids
    that no section lists. If the two sets are equal and the response has no
    id outside the answer key, it logs the answer-key ids the response
    lacks, which may be none, and raises all the same. Each logged list is
    sorted and has no id twice. *)
Theorem validate_all_reports_missing :
  ∀ (DEFAULT_SECTION_KEY : string) (omr_response : gmap string string)
    (w : world),
    let cfg := evaluation_config w in
    let answer_key : gset string := list_to_set (questions_in_order cfg) in
    let covered :=
      covered_questions DEFAULT_SECTION_KEY (marking_scheme cfg) in
    let run := validate_all DEFAULT_SECTION_KEY omr_response w in
    length (questions_in_order cfg) = length (answers_in_order cfg) →
    (∀ i key s, marking_scheme cfg !! i = Some (key, s) →
                key ≠ DEFAULT_SECTION_KEY → is_Some (questions s)) →
    sections_pairwise_disjoint DEFAULT_SECTION_KEY (marking_scheme cfg) →
    ∃ missing,
      Sorted str_le missing ∧ NoDup missing
      ∧ (covered ≠ answer_key → covered ⊆ answer_key →
           run = (Raised (SchemeCoverageError MissingFromMarkingScheme),
                  add_log (Critical_missing_marking_scheme missing) w)
           ∧ missing ≠ []
           ∧ ∀ q, q ∈ missing ↔ q ∈ answer_key ∧ q ∉ covered)
      ∧ (¬ covered ⊆ answer_key →
           run = (Raised (SchemeCoverageError MissingFromAnswerKey),
                  add_log (Critical_missing_answer_key missing) w)
           ∧ missing ≠ []
           ∧ ∀ q, q ∈ missing ↔ q ∈ covered ∧ q ∉ answer_key)
      ∧ (covered = answer_key → dom omr_response ⊆ answer_key →
           run = (Raised ResponseCoverageError,
                  add_log (Critical_missing_response missing) w)
           ∧ ∀ q, q ∈ missing ↔ q ∈ answer_key ∧ omr_response !! q = None).
Proof.
  intros DEFAULT resp w cfg answer_key covered run Hlen Hsome Hpw.
  pose proof (collect_section_questions_complete DEFAULT
                (marking_scheme cfg) ∅ Hsome Hpw) as Hcol.
  rewrite (left_id_L ∅ (∪)) in Hcol. specialize (Hcol ltac:(set_solver)).
  fold covered in Hcol.
  assert (Hrun : run = validate_all_outcome DEFAULT resp w)
    by apply validate_all_run.
  unfold validate_all_outcome in Hrun. fold cfg in Hrun.
  rewrite decide_False in Hrun by (intros ?; done).
  rewrite Hcol in Hrun. fold answer_key in Hrun.
  clear Hcol Hsome Hpw Hlen. clearbody run covered answer_key.
  destruct (decide (answer_key ≠ covered)) as [Hne|Heq].
  - destruct (decide (covered ⊆ answer_key)) as [Hsub|Hnsub].
    + destruct (py_sorted_spec (answer_key ∖ covered))
        as (Hsorted & Hnd & Hin & Hnil).
      exists (py_sorted (answer_key ∖ covered)).
      split; [done|]. split; [done|]. split; [|split].
      * intros _ _. split; [done|]. split.
        -- rewrite Hnil. intros Hempty. apply Hne.
           apply set_eq. intros q. split; [|by apply Hsub].
           intros Hq. destruct (decide (q ∈ covered)); [done|].
           exfalso. set_solver.
        -- intros q. rewrite Hin. set_solver.
      * by intros ?.
      * intros Heq. by destruct Hne.
    + destruct (py_sorted_spec (covered ∖ answer_key))
        as (Hsorted & Hnd & Hin & Hnil).
      exists (py_sorted (covered ∖ answer_key)).
      split; [done|]. split; [done|]. split; [|split].
      * by intros _ ?.
      * intros _. split; [done|]. split.
        -- rewrite Hnil. intros Hempty. apply Hnsub.
           intros q Hq. destruct (decide (q ∈ answer_key)); [done|].
           exfalso. set_solver.
        -- intros q. rewrite Hin. set_solver.
      * intros Heq. by destruct Hne.
  - apply dec_stable in Heq.
    destruct (py_sorted_spec (answer_key ∖ dom resp))
      as (Hsorted & Hnd & Hin & Hnil).
    exists (py_sorted (answer_key ∖ dom resp)).
    split; [done|]. split; [done|]. split; [|split].
    * intros Hne. by destruct Hne.
    * intros Hnsub. destruct Hnsub. by rewrite Heq.
    * intros _ Hdom. rewrite decide_True in Hrun by done. split; [done|].
      intros q. by rewrite Hin, elem_of_difference, not_elem_of_dom.
Qed.

Lemma validate_all_reports_missing_witness :
  ∃ missing,
    Sorted str_le missing ∧ NoDup missing
    ∧ validate_all "DEFAULT" response_A_C (new_world (one_section_config false))
      = (Raised ResponseCoverageError,
         add_log (Critical_missing_response missing)
           (new_world (one_section_config false)))
    ∧ ∀ q, q ∈ missing
           ↔ q ∈ (list_to_set ["q1"; "q2"] : gset string)
             ∧ response_A_C !! q = None.
Proof.
  assert (Hcol : collect_section_questions "DEFAULT" ∅
                   (marking_scheme (one_section_config false))
                 = Returned (list_to_set ["q1"; "q2"]))
    by (vm_compute; reflexivity).
  destruct (collect_section_questions_returned "DEFAULT" _ _ _ Hcol)
    as (HX & _ & Hpw & Hsome).
  destruct (validate_all_reports_missing "DEFAULT" response_A_C
              (new_world (one_section_config false)) eq_refl Hsome Hpw)
    as (missing & Hsorted & Hnd & _ & _ & Hresp).
  exists missing. split; [done|]. split; [done|].
  apply Hresp.
  - rewrite (left_id_L ∅ (∪)) in HX. exact (eq_sym HX).
  - unfold response_A_C. rewrite !dom_insert_L, dom_empty_L.
    cbn. set_solver.
Defined.
